(** * Polarization simulation engine (simulation/simulation.py)

    A shallow embedding of [single_exponential_polarization] and of the class
    [Simulation] ([__init__], [step], [reset]), with the properties of the
    engine stated and proved over it.

    Modelling conventions.
    - A Python [float] is read as a real number ([R]): the development is
      about the arithmetic the program writes down, not about binary64
      rounding, infinities or NaN.  Decimal literals are the exact decimals.
    - Float division raises [ZeroDivisionError] on a zero divisor ([pydiv]);
      [math.exp] is the real exponential: the [OverflowError] of binary64
      for arguments above about 709.78, which needs a negative [phi], and
      the underflow of its result to 0.0 are outside the model.
    - [self] is mutated in place and the assignments made before an exception
      stay: a computation is a function from the world (the object and the
      state of the [random] module) to an outcome and the world after it.
    - The [random] module is a stream of draws from [0,1) with a cursor;
      [random.random()] reads one draw, [random.uniform(a, b)] is
      [a + (b - a) * random()] as in CPython.
    - The [action] argument is [None] or a dict from keys to floats.
    - The [print] calls do not touch the object and are left out.

    The two Streamlit scripts that drive the model are embedded as far as
    they compute: the session state of simulation/app.py with its buttons
    and its loop around [Simulation.step], and the functions, session state
    and loop of the prototype simulation/streamlit_simulation.py.  Widgets
    are inputs, plots and sleeps are left out, and a [while] loop is read
    through its first [n] iterations. *)

From Stdlib Require Import Reals Lra List.
From stdpp Require Import base option gmap strings.
Import ListNotations.
Open Scope R_scope.

(** ** Exceptions and outcomes *)

Inductive exn : Type :=
| ZeroDivisionError.

Inductive outcome (A : Type) : Type :=
| Return (a : A)
| Raise (e : exn).
Arguments Return {A} a.
Arguments Raise {A} e.

#[global] Instance outcome_ret : MRet outcome := fun A a => Return a.
#[global] Instance outcome_bind : MBind outcome := fun A B f c =>
  match c with
  | Return a => f a
  | Raise e => Raise e
  end.

(** [x / y] on floats. *)
Definition pydiv (x y : R) : outcome R :=
  if Req_dec_T y 0 then Raise ZeroDivisionError else Return (x / y).

(** [min(a, b)] and [max(a, b)] of two arguments: the first one is kept
    unless the second is strictly smaller (larger). *)
Definition py_min (a b : R) : R := if Rlt_dec b a then b else a.
Definition py_max (a b : R) : R := if Rgt_dec b a then b else a.

(** ** Module-level definitions of simulation.py *)

Definition ELECTRON_CHARGE : R := 1.602e-19.

Definition single_exponential_polarization (dose pmax phi : R) : outcome R :=
  if Rle_dec dose 1e-12 then
    Return pmax
  else
    q ← pydiv (- dose) phi;
    Return (pmax * exp q).

(** ** The class Simulation *)

Module Simulation.

(** The attributes of an instance. *)
Record t : Type := mk {
  beam_current : R;
  time_step : R;
  beam_area : R;
  microwave_frequency : R;
  pmax : R;
  phi : R;
  accumulated_dose : R;
  polarization : R;
  time_elapsed : R;
  in_trip : bool;
  trip_start : R;
  trip_duration : R;
  min_trip_duration : R;
  max_trip_duration : R;
  trip_prob_per_step : R
}.

(** Attribute assignments [self.x = v]. *)
Definition set_beam_current (v : R) (s : t) : t :=
  mk v (time_step s) (beam_area s) (microwave_frequency s) (pmax s) (phi s)
     (accumulated_dose s) (polarization s) (time_elapsed s)
     (in_trip s) (trip_start s) (trip_duration s)
     (min_trip_duration s) (max_trip_duration s) (trip_prob_per_step s).

Definition set_microwave_frequency (v : R) (s : t) : t :=
  mk (beam_current s) (time_step s) (beam_area s) v (pmax s) (phi s)
     (accumulated_dose s) (polarization s) (time_elapsed s)
     (in_trip s) (trip_start s) (trip_duration s)
     (min_trip_duration s) (max_trip_duration s) (trip_prob_per_step s).

Definition set_accumulated_dose (v : R) (s : t) : t :=
  mk (beam_current s) (time_step s) (beam_area s) (microwave_frequency s)
     (pmax s) (phi s)
     v (polarization s) (time_elapsed s)
     (in_trip s) (trip_start s) (trip_duration s)
     (min_trip_duration s) (max_trip_duration s) (trip_prob_per_step s).

Definition set_polarization (v : R) (s : t) : t :=
  mk (beam_current s) (time_step s) (beam_area s) (microwave_frequency s)
     (pmax s) (phi s)
     (accumulated_dose s) v (time_elapsed s)
     (in_trip s) (trip_start s) (trip_duration s)
     (min_trip_duration s) (max_trip_duration s) (trip_prob_per_step s).

Definition set_time_elapsed (v : R) (s : t) : t :=
  mk (beam_current s) (time_step s) (beam_area s) (microwave_frequency s)
     (pmax s) (phi s)
     (accumulated_dose s) (polarization s) v
     (in_trip s) (trip_start s) (trip_duration s)
     (min_trip_duration s) (max_trip_duration s) (trip_prob_per_step s).

Definition set_in_trip (v : bool) (s : t) : t :=
  mk (beam_current s) (time_step s) (beam_area s) (microwave_frequency s)
     (pmax s) (phi s)
     (accumulated_dose s) (polarization s) (time_elapsed s)
     v (trip_start s) (trip_duration s)
     (min_trip_duration s) (max_trip_duration s) (trip_prob_per_step s).

Definition set_trip_start (v : R) (s : t) : t :=
  mk (beam_current s) (time_step s) (beam_area s) (microwave_frequency s)
     (pmax s) (phi s)
     (accumulated_dose s) (polarization s) (time_elapsed s)
     (in_trip s) v (trip_duration s)
     (min_trip_duration s) (max_trip_duration s) (trip_prob_per_step s).

Definition set_trip_duration (v : R) (s : t) : t :=
  mk (beam_current s) (time_step s) (beam_area s) (microwave_frequency s)
     (pmax s) (phi s)
     (accumulated_dose s) (polarization s) (time_elapsed s)
     (in_trip s) (trip_start s) v
     (min_trip_duration s) (max_trip_duration s) (trip_prob_per_step s).

(** The state of the [random] module. *)
Record Rng : Type := mkRng {
  draws : nat -> R;
  cursor : nat
}.

(** What a method call runs in. *)
Record World : Type := mkWorld {
  self : t;
  rng : Rng
}.

(** Methods: state is threaded, and kept when an exception is raised. *)
Definition M (A : Type) : Type := World -> outcome A * World.

#[global] Instance M_ret : MRet M := fun A a w => (Return a, w).
#[global] Instance M_bind : MBind M := fun A B f c w =>
  match c w with
  | (Return a, w') => f a w'
  | (Raise e, w') => (Raise e, w')
  end.

Definition lift {A : Type} (c : outcome A) : M A := fun w => (c, w).
Definition get_self : M t := fun w => (Return (self w), w).
Definition assign (upd : t -> t) : M unit :=
  fun w => (Return tt, mkWorld (upd (self w)) (rng w)).

(** [random.random()] *)
Definition random : M R := fun w =>
  (Return (draws (rng w) (cursor (rng w))),
   mkWorld (self w) (mkRng (draws (rng w)) (S (cursor (rng w))))).

(** [random.uniform(a, b)] *)
Definition uniform (a b : R) : M R :=
  u ← random;
  mret (a + (b - a) * u).

(** Default arguments of [__init__]. *)
Definition default_microwave_frequency : R := 140.1.
Definition default_pmax : R := 0.95.
Definition default_phi : R := 25.6e15 * 1.13.
Definition default_trip_rate_per_hour : R := 12.
Definition default_trip_duration_min : R * R := (20, 300).

Definition __init__
    (beam_current time_step beam_area microwave_frequency pmax phi
     trip_rate_per_hour : R) (trip_duration_min : R * R) : outcome t :=
  let '(min_trip_duration, max_trip_duration) := trip_duration_min in
  trip_prob_per_step ← pydiv trip_rate_per_hour 3600;
  Return (mk beam_current time_step beam_area microwave_frequency
             0.95 (25.6e15 * 1.13)
             0 pmax 0
             false 0 0
             min_trip_duration max_trip_duration trip_prob_per_step).

(** The dict returned by [step]. *)
Record StepData : Type := mkStepData {
  sd_time : R;
  sd_polarization : R;
  sd_accumulated_dose : R;
  sd_beam_current : R;
  sd_in_trip : bool;
  sd_microwave_frequency : R
}.

(** Truth value of the [action] argument: [None] and the empty dict are
    false. *)
Definition truthy (action : option (gmap string R)) : bool :=
  match action with
  | None => false
  | Some d => negb (bool_decide (d = ∅))
  end.

(** [key in action] together with [action[key]]. *)
Definition item (action : option (gmap string R)) (key : string) : option R :=
  d ← action; d !! key.

Definition step (action : option (gmap string R)) : M StepData :=
  (* 1. RL/programmatic updates *)
  (if truthy action then
     match item action "beam_current" with
     | Some v => assign (set_beam_current v)
     | None => mret tt
     end;;
     match item action "microwave_frequency" with
     | Some v => assign (set_microwave_frequency v)
     | None => mret tt
     end
   else mret tt);;
  (* 2. Beam trip logic *)
  s ← get_self;
  current_beam ←
    (if in_trip s then
       (if Rgt_dec (time_elapsed s - trip_start s) (trip_duration s)
        then assign (set_in_trip false)
        else mret tt);;
       s ← get_self;
       mret (if in_trip s then 0 else beam_current s)
     else
       let p_trip := trip_prob_per_step s * time_step s in
       u ← random;
       if Rlt_dec u p_trip then
         assign (set_in_trip true);;
         assign (set_trip_start (time_elapsed s));;
         d ← uniform (min_trip_duration s) (max_trip_duration s);
         assign (set_trip_duration d);;
         mret 0
       else
         mret (beam_current s));
  (* 3. Dose increment if beam is on *)
  (if Rgt_dec current_beam 0 then
     s ← get_self;
     dDose ← lift (pydiv (current_beam * time_step s)
                         (ELECTRON_CHARGE * beam_area s));
     assign (set_accumulated_dose (accumulated_dose s + dDose))
   else mret tt);;
  (* 4. Single-exponential degrade *)
  s ← get_self;
  base_pol ← lift (single_exponential_polarization
                     (accumulated_dose s) (pmax s) (phi s));
  (* 5. Optional microwave effect *)
  let microwave_effect := - (microwave_frequency s - 140.1) * 0.0001 in
  (* Combine *)
  assign (set_polarization (base_pol + microwave_effect));;
  s ← get_self;
  assign (set_polarization (py_max 0 (py_min 1 (polarization s))));;
  (* 6. Advance time *)
  s ← get_self;
  assign (set_time_elapsed (time_elapsed s + time_step s));;
  (* Return step data *)
  s ← get_self;
  mret (mkStepData (time_elapsed s) (polarization s) (accumulated_dose s)
                   current_beam (in_trip s) (microwave_frequency s)).

Definition reset : M unit :=
  assign (set_accumulated_dose 0);;
  s ← get_self;
  assign (set_polarization (pmax s));;
  assign (set_time_elapsed 0);;
  assign (set_in_trip false);;
  assign (set_trip_start 0);;
  assign (set_trip_duration 0).

End Simulation.

Import Simulation.

(** ** The numbered sections of [step]

    The body of [step], cut at its numbered comments into computations of
    their own; [step] is their sequence ([step_blocks]). *)

(** 1. RL/programmatic updates *)
Definition apply_action (action : option (gmap string R)) : M unit :=
  if truthy action then
    match item action "beam_current" with
    | Some v => assign (set_beam_current v)
    | None => mret tt
    end;;
    match item action "microwave_frequency" with
    | Some v => assign (set_microwave_frequency v)
    | None => mret tt
    end
  else mret tt.

(** 2. Beam trip logic; returns [current_beam]. *)
Definition beam_trip_logic : M R :=
  s ← get_self;
  if in_trip s then
    (if Rgt_dec (time_elapsed s - trip_start s) (trip_duration s)
     then assign (set_in_trip false)
     else mret tt);;
    s ← get_self;
    mret (if in_trip s then 0 else beam_current s)
  else
    let p_trip := trip_prob_per_step s * time_step s in
    u ← random;
    if Rlt_dec u p_trip then
      assign (set_in_trip true);;
      assign (set_trip_start (time_elapsed s));;
      d ← uniform (min_trip_duration s) (max_trip_duration s);
      assign (set_trip_duration d);;
      mret 0
    else
      mret (beam_current s).

(** 3. Dose increment if beam is on *)
Definition dose_increment (current_beam : R) : M unit :=
  if Rgt_dec current_beam 0 then
    s ← get_self;
    dDose ← lift (pydiv (current_beam * time_step s)
                        (ELECTRON_CHARGE * beam_area s));
    assign (set_accumulated_dose (accumulated_dose s + dDose))
  else mret tt.

(** 4. to 6. Single-exponential degrade, microwave effect, combine, advance
    time, return step data. *)
Definition polarization_and_time (current_beam : R) : M StepData :=
  s ← get_self;
  base_pol ← lift (single_exponential_polarization
                     (accumulated_dose s) (pmax s) (phi s));
  let microwave_effect := - (microwave_frequency s - 140.1) * 0.0001 in
  assign (set_polarization (base_pol + microwave_effect));;
  s ← get_self;
  assign (set_polarization (py_max 0 (py_min 1 (polarization s))));;
  s ← get_self;
  assign (set_time_elapsed (time_elapsed s + time_step s));;
  s ← get_self;
  mret (mkStepData (time_elapsed s) (polarization s) (accumulated_dose s)
                   current_beam (in_trip s) (microwave_frequency s)).

(** [step] up to and including the assignment
    [self.polarization = base_pol + microwave_effect], returning the value
    assigned. *)
Definition step_to_combine (action : option (gmap string R)) : M R :=
  apply_action action;;
  current_beam ← beam_trip_logic;
  dose_increment current_beam;;
  s ← get_self;
  base_pol ← lift (single_exponential_polarization
                     (accumulated_dose s) (pmax s) (phi s));
  let microwave_effect := - (microwave_frequency s - 140.1) * 0.0001 in
  assign (set_polarization (base_pol + microwave_effect));;
  s ← get_self;
  mret (polarization s).

(** ** Calls in sequence

    A caller that calls [step] once per action and keeps going after an
    exception: the outcome of every call with the world after it, and the
    world after the last call. *)

Fixpoint steps (actions : list (option (gmap string R))) (w : World)
  : list (outcome StepData * World) :=
  match actions with
  | [] => []
  | a :: rest => let rw := step a w in rw :: steps rest (snd rw)
  end.

Definition after (actions : list (option (gmap string R))) (w : World)
  : World :=
  fold_left (fun w a => snd (step a w)) actions w.

(** ** Vocabulary of the properties *)

Definition in_unit_interval (x : R) : Prop := 0 <= x <= 1.

(** [max(0.0, min(1.0, x))] *)
Definition clamp (x : R) : R := py_max 0 (py_min 1 x).

(** The microwave term of section 5 at frequency [f]. *)
Definition microwave_effect (f : R) : R := - (f - 140.1) * 0.0001.

(** The decay law as the specification writes it. *)
Definition base_polarization (dose pmax phi : R) : R :=
  if Rle_dec dose 1e-12 then pmax else pmax * exp (- dose / phi).

(** The two divisors [step] can meet at zero. *)
Definition zero_divisor (s : t) : Prop := beam_area s = 0 \/ phi s = 0.

(** ** [step] as a function of the state

    What each section does to the object and the generator, written as plain
    functions; [step_spec] and [step_to_combine_spec] prove that the code
    above computes them. *)

(** The object after section 1. *)
Definition overridden (a : option (gmap string R)) (s : t) : t :=
  let s1 := match item a "beam_current" with
            | Some v => set_beam_current v s
            | None => s
            end in
  match item a "microwave_frequency" with
  | Some v => set_microwave_frequency v s1
  | None => s1
  end.

(** [current_beam] and the world after section 2. *)
Definition trip_result (s : t) (g : Rng) : R * World :=
  if in_trip s then
    if Rgt_dec (time_elapsed s - trip_start s) (trip_duration s)
    then (beam_current s, mkWorld (set_in_trip false s) g)
    else (0, mkWorld s g)
  else
    if Rlt_dec (draws g (cursor g)) (trip_prob_per_step s * time_step s)
    then (0,
          mkWorld
            (set_trip_duration
               (min_trip_duration s
                + (max_trip_duration s - min_trip_duration s)
                  * draws g (S (cursor g)))
               (set_trip_start (time_elapsed s) (set_in_trip true s)))
            (mkRng (draws g) (S (S (cursor g)))))
    else (beam_current s, mkWorld s (mkRng (draws g) (S (cursor g)))).

(** The object after section 3. *)
Definition dosed (cb : R) (s : t) : outcome t :=
  if Rgt_dec cb 0 then
    d ← pydiv (cb * time_step s) (ELECTRON_CHARGE * beam_area s);
    Return (set_accumulated_dose (accumulated_dose s + d) s)
  else Return s.

(** Outcome and world after sections 3 to 6. *)
Definition finished (cb : R) (s : t) (g : Rng) : outcome StepData * World :=
  match dosed cb s with
  | Raise e => (Raise e, mkWorld s g)
  | Return s3 =>
      match single_exponential_polarization
              (accumulated_dose s3) (pmax s3) (phi s3) with
      | Raise e => (Raise e, mkWorld s3 g)
      | Return base_pol =>
          let raw := base_pol + microwave_effect (microwave_frequency s3) in
          let t' := time_elapsed s3 + time_step s3 in
          (Return (mkStepData t' (clamp raw) (accumulated_dose s3) cb
                              (in_trip s3) (microwave_frequency s3)),
           mkWorld (set_time_elapsed t' (set_polarization (clamp raw) s3)) g)
      end
  end.

(** Outcome and world of [step_to_combine] after section 2. *)
Definition combined (cb : R) (s : t) (g : Rng) : outcome R * World :=
  match dosed cb s with
  | Raise e => (Raise e, mkWorld s g)
  | Return s3 =>
      match single_exponential_polarization
              (accumulated_dose s3) (pmax s3) (phi s3) with
      | Raise e => (Raise e, mkWorld s3 g)
      | Return base_pol =>
          let raw := base_pol + microwave_effect (microwave_frequency s3) in
          (Return raw, mkWorld (set_polarization raw s3) g)
      end
  end.

(** ** Concrete engines and generators *)

(** A generator that always draws 0.5, and one that always draws 0. *)
Definition rng_half : Rng := mkRng (fun _ => 0.5) 0.

Definition rng_zero : Rng := mkRng (fun _ => 0) 0.

(** [Simulation(2e-9, 1.0, 1.0)] *)
Definition engine_default : t :=
  mk 2e-9 1 1 140.1 0.95 (25.6e15 * 1.13) 0 0.95 0 false 0 0 20 300
     (12 / 3600).

(** [Simulation(2e-9, 1, 0, 140.1, 2)] *)
Definition engine_unclamped : t :=
  mk 2e-9 1 0 140.1 0.95 (25.6e15 * 1.13) 0 2 0 false 0 0 20 300
     (12 / 3600).

(** [Simulation(1, 1, -1)] *)
Definition engine_negative_area : t :=
  mk 1 1 (-1) 140.1 0.95 (25.6e15 * 1.13) 0 0.95 0 false 0 0 20 300
     (12 / 3600).

(** The default engine in a trip begun at 10 s for 30 s, at 100 s and at
    15 s. *)
Definition engine_tripped : t :=
  mk 2e-9 1 1 140.1 0.95 (25.6e15 * 1.13) 0 0.95 100 true 10 30 20 300
     (12 / 3600).

Definition engine_waiting : t :=
  mk 2e-9 1 1 140.1 0.95 (25.6e15 * 1.13) 0 0.95 15 true 10 30 20 300
     (12 / 3600).

(** The action of the docstring of [step]. *)
Definition docstring_action : option (gmap string R) :=
  Some (<["beam_current" := 2e-9]> {[ "microwave_frequency" := 139.5 ]}).

(** An action that sets neither attribute. *)
Definition no_override (a : option (gmap string R)) : Prop :=
  item a "beam_current" = None /\ item a "microwave_frequency" = None.

(** The attributes [reset] leaves alone agree. *)
Definition same_configuration (s s' : t) : Prop :=
  beam_current s' = beam_current s /\
  time_step s' = time_step s /\
  beam_area s' = beam_area s /\
  microwave_frequency s' = microwave_frequency s /\
  pmax s' = pmax s /\
  phi s' = phi s /\
  min_trip_duration s' = min_trip_duration s /\
  max_trip_duration s' = max_trip_duration s /\
  trip_prob_per_step s' = trip_prob_per_step s.

(** ** Scripts: state with exceptions *)

Definition St (S A : Type) : Type := S -> outcome A * S.

#[global] Instance St_ret {S : Type} : MRet (St S) | 100 :=
  fun A a s => (Return a, s).
#[global] Instance St_bind {S : Type} : MBind (St S) | 100 := fun A B f c s =>
  match c s with
  | (Return a, s') => f a s'
  | (Raise e, s') => (Raise e, s')
  end.

Definition st_lift {S A : Type} (c : outcome A) : St S A := fun s => (c, s).
Definition st_get {S : Type} : St S S := fun s => (Return s, s).
Definition st_modify {S : Type} (upd : S -> S) : St S unit :=
  fun s => (Return tt, upd s).

(** [while cond: body], cut after [n] iterations. *)
Fixpoint while_loop {S : Type} (n : nat) (cond : S -> bool)
    (body : St S unit) : St S unit :=
  match n with
  | O => mret tt
  | S k =>
      s ← st_get;
      if cond s then body;; while_loop k cond body else mret tt
  end.

(** ** The dashboard (simulation/app.py) *)

Module App.

Record Session : Type := mkSession {
  running : bool;
  sim : World;
  time_array : list R;
  pol_array : list R;
  freq_array : list R;
  dose_array : list R;
  beam_current_array : list R
}.

Definition set_running (v : bool) (ss : Session) : Session :=
  mkSession v (sim ss) (time_array ss) (pol_array ss) (freq_array ss)
            (dose_array ss) (beam_current_array ss).

Definition set_sim (v : World) (ss : Session) : Session :=
  mkSession (running ss) v (time_array ss) (pol_array ss) (freq_array ss)
            (dose_array ss) (beam_current_array ss).

Definition append_time (v : R) (ss : Session) : Session :=
  mkSession (running ss) (sim ss) (time_array ss ++ [v]) (pol_array ss)
            (freq_array ss) (dose_array ss) (beam_current_array ss).

Definition append_pol (v : R) (ss : Session) : Session :=
  mkSession (running ss) (sim ss) (time_array ss) (pol_array ss ++ [v])
            (freq_array ss) (dose_array ss) (beam_current_array ss).

Definition append_freq (v : R) (ss : Session) : Session :=
  mkSession (running ss) (sim ss) (time_array ss) (pol_array ss)
            (freq_array ss ++ [v]) (dose_array ss) (beam_current_array ss).

Definition append_dose (v : R) (ss : Session) : Session :=
  mkSession (running ss) (sim ss) (time_array ss) (pol_array ss)
            (freq_array ss) (dose_array ss ++ [v]) (beam_current_array ss).

Definition append_beam_current (v : R) (ss : Session) : Session :=
  mkSession (running ss) (sim ss) (time_array ss) (pol_array ss)
            (freq_array ss) (dose_array ss) (beam_current_array ss ++ [v]).

(** Lines 50 to 73 on an empty session state, for the sidebar values
    [beam_current], [time_step], [beam_area], the configured default
    frequency and a state of the random module. *)
Definition new_session
    (beam_current time_step beam_area microwave_frequency_default : R)
    (g : Rng) : outcome Session :=
  s ← __init__ beam_current time_step beam_area microwave_frequency_default
               0.95 25.6 12 (20, 300);
  Return (mkSession false (mkWorld s g) [] [] [] [] []).

(** [st.session_state.sim.step()]: a method call on the engine of the
    session. *)
Definition sim_step (action : option (gmap string R)) : St Session StepData :=
  fun ss =>
    let rw := step action (sim ss) in (fst rw, set_sim (snd rw) ss).

(** The four buttons. *)
Definition increase_frequency (ss : Session) : Session :=
  set_sim (mkWorld (set_microwave_frequency
                      (microwave_frequency (self (sim ss)) + 0.1)
                      (self (sim ss)))
                   (rng (sim ss))) ss.

Definition decrease_frequency (ss : Session) : Session :=
  set_sim (mkWorld (set_microwave_frequency
                      (microwave_frequency (self (sim ss)) - 0.1)
                      (self (sim ss)))
                   (rng (sim ss))) ss.

Definition start_simulation (ss : Session) : Session := set_running true ss.
Definition stop_simulation (ss : Session) : Session := set_running false ss.

(** The body of the loop, lines 103 to 108 (the plots and the sleep do not
    touch the session). *)
Definition loop_body : St Session unit :=
  state ← sim_step None;
  st_modify (append_time (sd_time state));;
  st_modify (append_pol (sd_polarization state));;
  st_modify (append_freq (sd_microwave_frequency state));;
  st_modify (append_dose (sd_accumulated_dose state));;
  st_modify (append_beam_current (sd_beam_current state)).

(** [while st.session_state.running: ...], cut after [n] iterations. *)
Definition loop (n : nat) : St Session unit :=
  while_loop n running loop_body.

End App.

(** Entries in increasing positions do not decrease. *)
Definition non_decreasing (l : list R) : Prop :=
  forall (i j : nat) (x y : R),
    (i <= j)%nat -> l !! i = Some x -> l !! j = Some y -> x <= y.

(** The dose array is in order and below the dose of the engine. *)
Definition dose_recorded_in_order (ss : App.Session) : Prop :=
  non_decreasing (App.dose_array ss) /\
  Forall (fun d => d <= accumulated_dose (self (App.sim ss)))
    (App.dose_array ss).

(** The dashboard session of the default sidebar values. *)
Definition session_default : App.Session :=
  App.mkSession false (mkWorld engine_default rng_half) [] [] [] [] [].

(** ** The first prototype (simulation/streamlit_simulation.py) *)

Module Prototype.

Definition ELECTRON_CHARGE : R := 1.602e-19.

Definition effective_T1 (T1_initial beam_current : R) : outcome R :=
  pydiv T1_initial (1 + 0.1 * beam_current).

Definition polarization_model
    (P T1 beta P_thermal dt microwave_effect : R) : outcome R :=
  q ← pydiv (- (P - P_thermal)) T1;
  let dP_dt := q - beta * P + microwave_effect in
  Return (P + dP_dt * dt).

(** The values of the sidebar widgets. *)
Record Controls : Type := mkControls {
  P_thermal : R;
  T1_initial : R;
  beam_current : R;
  radiation_coeff : R;
  time_step : R;
  beam_area : R
}.

(** [st.session_state] *)
Record Session : Type := mkSession {
  running : bool;
  microwave_frequency : R;
  polarization : R;
  time_steps : list R;
  polarization_history : list R;
  frequency_history : list R;
  dose_history : list R;
  accumulated_dose : R
}.

(** Lines 20 to 35 on an empty session state. *)
Definition new_session : Session :=
  mkSession false 140.1 0.9 [] [] [] [] 0.

Definition set_polarization (v : R) (ss : Session) : Session :=
  mkSession (running ss) (microwave_frequency ss) v (time_steps ss)
            (polarization_history ss) (frequency_history ss)
            (dose_history ss) (accumulated_dose ss).

Definition set_accumulated_dose (v : R) (ss : Session) : Session :=
  mkSession (running ss) (microwave_frequency ss) (polarization ss)
            (time_steps ss) (polarization_history ss) (frequency_history ss)
            (dose_history ss) v.

Definition set_time_steps (v : list R) (ss : Session) : Session :=
  mkSession (running ss) (microwave_frequency ss) (polarization ss) v
            (polarization_history ss) (frequency_history ss)
            (dose_history ss) (accumulated_dose ss).

Definition set_polarization_history (v : list R) (ss : Session) : Session :=
  mkSession (running ss) (microwave_frequency ss) (polarization ss)
            (time_steps ss) v (frequency_history ss)
            (dose_history ss) (accumulated_dose ss).

Definition set_frequency_history (v : list R) (ss : Session) : Session :=
  mkSession (running ss) (microwave_frequency ss) (polarization ss)
            (time_steps ss) (polarization_history ss) v
            (dose_history ss) (accumulated_dose ss).

Definition set_dose_history (v : list R) (ss : Session) : Session :=
  mkSession (running ss) (microwave_frequency ss) (polarization ss)
            (time_steps ss) (polarization_history ss) (frequency_history ss)
            v (accumulated_dose ss).

Definition set_running (v : bool) (ss : Session) : Session :=
  mkSession v (microwave_frequency ss) (polarization ss) (time_steps ss)
            (polarization_history ss) (frequency_history ss)
            (dose_history ss) (accumulated_dose ss).

Definition set_microwave_frequency (v : R) (ss : Session) : Session :=
  mkSession (running ss) v (polarization ss) (time_steps ss)
            (polarization_history ss) (frequency_history ss)
            (dose_history ss) (accumulated_dose ss).

(** The four buttons. *)
Definition increase_frequency (ss : Session) : Session :=
  set_microwave_frequency (microwave_frequency ss + 0.1) ss.

Definition decrease_frequency (ss : Session) : Session :=
  set_microwave_frequency (microwave_frequency ss - 0.1) ss.

Definition start_simulation (ss : Session) : Session := set_running true ss.
Definition stop_simulation (ss : Session) : Session := set_running false ss.

(** The body of the loop, lines 78 to 102 (the plots and the sleep do not
    touch the session). *)
Definition loop_body (c : Controls) : St Session unit :=
  (* Calculate effective T1 *)
  T1 ← st_lift (effective_T1 (T1_initial c) (beam_current c));
  (* Compute microwave effect based on deviation from 140.1 GHz *)
  ss ← st_get;
  let microwave_effect := - (microwave_frequency ss - 140.1) * 0.01 in
  (* Update polarization *)
  polarization' ← st_lift (polarization_model (polarization ss) T1
                             (radiation_coeff c) (P_thermal c) (time_step c)
                             microwave_effect);
  st_modify (set_polarization (py_max 0 polarization'));;
  (* Update accumulated dose *)
  d ← st_lift (pydiv (beam_current c * time_step c)
                     (ELECTRON_CHARGE * beam_area c));
  ss ← st_get;
  st_modify (set_accumulated_dose (accumulated_dose ss + d));;
  ss ← st_get;
  st_modify (set_dose_history (dose_history ss ++ [accumulated_dose ss]));;
  (* Append to history *)
  ss ← st_get;
  let time_step_index := INR (length (time_steps ss)) * time_step c in
  st_modify (set_time_steps (time_steps ss ++ [time_step_index]));;
  ss ← st_get;
  st_modify (set_polarization_history
               (polarization_history ss ++ [polarization ss]));;
  ss ← st_get;
  st_modify (set_frequency_history
               (frequency_history ss ++ [microwave_frequency ss]));;
  (* Ensure all histories are the same length *)
  ss ← st_get;
  if (length (time_steps ss) <? length (dose_history ss))%nat then
    st_modify (set_dose_history
                 (take (length (time_steps ss)) (dose_history ss)))
  else mret tt.

(** [while st.session_state.running: ...], cut after [n] iterations. *)
Definition loop (c : Controls) (n : nat) : St Session unit :=
  while_loop n running (loop_body c).

End Prototype.

(** No divisor of the prototype loop is zero. *)
Definition controls_ok (c : Prototype.Controls) : Prop :=
  Prototype.beam_current c <> -10 /\ Prototype.T1_initial c <> 0 /\
  Prototype.beam_area c <> 0.

(** The dose the prototype adds per iteration. *)
Definition dose_step (c : Prototype.Controls) : R :=
  (Prototype.beam_current c * Prototype.time_step c)
  / (Prototype.ELECTRON_CHARGE * Prototype.beam_area c).

(** A prototype session whose dose history is ahead of its time axis, and
    the default sidebar values. *)
Definition session_unaligned : Prototype.Session :=
  Prototype.mkSession true 140.1 0.9 [] [] [] [5; 7] 7.

Definition controls_default : Prototype.Controls :=
  Prototype.mkControls 0.05 300 2e-9 0.0001 1 1.

(** [Simulation(2e-9, 1, 0)] *)
Definition engine_zero_area : t :=
  mk 2e-9 1 0 140.1 0.95 (25.6e15 * 1.13) 0 0.95 0 false 0 0 20 300
     (12 / 3600).

(** * Properties *)

(** ** Tactics *)

Ltac run_M :=
  unfold mbind, mret, M_bind, M_ret, outcome_bind, outcome_ret,
    uniform, random, assign, get_self, lift; cbn.

Ltac arith := unfold ELECTRON_CHARGE in *; lra.

Ltac decide_R :=
  repeat match goal with
         | |- context [Rlt_dec ?x ?y] => destruct (Rlt_dec x y); try arith
         | |- context [Rgt_dec ?x ?y] => destruct (Rgt_dec x y); try arith
         | |- context [Rle_dec ?x ?y] => destruct (Rle_dec x y); try arith
         | |- context [Req_dec_T ?x ?y] =>
             destruct (Req_dec_T x y); try arith
         end.

Ltac fields := cbn -[Z.pow_pos].

(** ** Arithmetic *)

Lemma pydiv_return (x y : R) : y <> 0 -> pydiv x y = Return (x / y).
Proof. intros H. unfold pydiv. destruct (Req_dec_T y 0); [contradiction|reflexivity]. Qed.

Lemma pydiv_raise (x y : R) (e : exn) : pydiv x y = Raise e -> y = 0.
Proof. unfold pydiv. destruct (Req_dec_T y 0); [trivial|discriminate]. Qed.

Lemma pydiv_inv (x y q : R) : pydiv x y = Return q -> y <> 0 /\ q = x / y.
Proof.
  unfold pydiv. destruct (Req_dec_T y 0); [discriminate|].
  intros H. injection H as <-. auto.
Qed.

Lemma ELECTRON_CHARGE_pos : 0 < ELECTRON_CHARGE.
Proof. unfold ELECTRON_CHARGE. lra. Qed.

Lemma clamp_in_unit_interval (x : R) : in_unit_interval (clamp x).
Proof.
  unfold in_unit_interval, clamp, py_max, py_min.
  destruct (Rlt_dec x 1); destruct (Rgt_dec _ 0); lra.
Qed.

Lemma clamp_id (x : R) : in_unit_interval x -> clamp x = x.
Proof.
  unfold in_unit_interval, clamp, py_max, py_min. intros H.
  destruct (Rlt_dec x 1); destruct (Rgt_dec _ 0); lra.
Qed.

Lemma microwave_effect_reference : microwave_effect 140.1 = 0.
Proof. unfold microwave_effect. lra. Qed.

Lemma microwave_effect_difference (f1 f2 : R) :
  microwave_effect f1 - microwave_effect f2 = -0.0001 * (f1 - f2).
Proof. unfold microwave_effect. lra. Qed.

Lemma uniform_between (lo hi u : R) :
  lo <= hi -> 0 <= u <= 1 -> lo <= lo + (hi - lo) * u <= hi.
Proof. intros. split; nra. Qed.

Lemma single_exponential_polarization_value (dose pm ph : R) :
  ph <> 0 \/ dose <= 1e-12 ->
  single_exponential_polarization dose pm ph
  = Return (base_polarization dose pm ph).
Proof.
  unfold single_exponential_polarization, base_polarization.
  destruct (Rle_dec dose 1e-12); [reflexivity|].
  intros [H|H]; [|contradiction].
  rewrite pydiv_return by exact H. reflexivity.
Qed.

Lemma single_exponential_polarization_inv (dose pm ph b : R) :
  single_exponential_polarization dose pm ph = Return b ->
  b = base_polarization dose pm ph.
Proof.
  unfold single_exponential_polarization, base_polarization.
  destruct (Rle_dec dose 1e-12).
  - intros H; injection H as <-. reflexivity.
  - destruct (pydiv _ _) as [q|] eqn:Hq; cbn; [|discriminate].
    apply pydiv_inv in Hq as [_ ->].
    intros H; injection H as <-. reflexivity.
Qed.

Lemma base_polarization_in_unit_interval (dose pm ph : R) :
  0 <= pm <= 1 -> 0 < ph ->
  in_unit_interval (base_polarization dose pm ph).
Proof.
  intros Hpm Hph. unfold base_polarization, in_unit_interval.
  destruct (Rle_dec dose 1e-12) as [Hd|Hd]; [exact Hpm|].
  assert (Hneg : - dose / ph < 0).
  { apply Rmult_neg_pos; [lra|]. apply Rinv_0_lt_compat, Hph. }
  pose proof (exp_pos (- dose / ph)) as Hpos.
  pose proof (exp_increasing _ _ Hneg) as Hlt. rewrite exp_0 in Hlt.
  split; nra.
Qed.

(** ** The constructor and [reset] *)

Lemma init_returns (bc ts ba mf pm ph rate : R) (dur : R * R) :
  __init__ bc ts ba mf pm ph rate dur =
  Return (mk bc ts ba mf 0.95 (25.6e15 * 1.13) 0 pm 0 false 0 0
             (fst dur) (snd dur) (rate / 3600)).
Proof.
  unfold __init__. destruct dur as [lo hi].
  rewrite pydiv_return by lra. reflexivity.
Qed.

Example init_default :
  __init__ 2e-9 1 1 default_microwave_frequency default_pmax default_phi
           default_trip_rate_per_hour default_trip_duration_min
  = Return engine_default.
Proof. apply init_returns. Qed.

Lemma reset_run (s : t) (g : Rng) :
  reset (mkWorld s g) =
  (Return tt,
   mkWorld (mk (beam_current s) (time_step s) (beam_area s)
               (microwave_frequency s) (pmax s) (phi s)
               0 (pmax s) 0 false 0 0
               (min_trip_duration s) (max_trip_duration s)
               (trip_prob_per_step s)) g).
Proof. reflexivity. Qed.

(** ** [step] computes its functional reading *)

Lemma step_blocks (a : option (gmap string R)) (w : World) :
  step a w =
  (apply_action a;; current_beam ← beam_trip_logic;
   dose_increment current_beam;; polarization_and_time current_beam) w.
Proof. reflexivity. Qed.

Lemma item_falsy (a : option (gmap string R)) (k : string) :
  truthy a = false -> item a k = None.
Proof.
  destruct a as [d|]; cbn; [|reflexivity].
  intros H. apply negb_false_iff, bool_decide_eq_true in H. subst d.
  apply lookup_empty.
Qed.

Lemma apply_action_spec (a : option (gmap string R)) (s : t) (g : Rng) :
  apply_action a (mkWorld s g) = (Return tt, mkWorld (overridden a s) g).
Proof.
  unfold apply_action, overridden. run_M.
  destruct (truthy a) eqn:Ht.
  - destruct (item a "beam_current"), (item a "microwave_frequency");
      destruct s; reflexivity.
  - rewrite !(item_falsy _ _ Ht). reflexivity.
Qed.

Lemma beam_trip_logic_spec (s : t) (g : Rng) :
  beam_trip_logic (mkWorld s g) =
  (Return (fst (trip_result s g)), snd (trip_result s g)).
Proof.
  unfold beam_trip_logic, trip_result. run_M.
  destruct (in_trip s) eqn:Hin.
  - destruct (Rgt_dec _ _); cbn.
    + reflexivity.
    + rewrite Hin. reflexivity.
  - destruct (Rlt_dec _ _); reflexivity.
Qed.

Lemma finish_spec (cb : R) (s : t) (g : Rng) :
  (dose_increment cb;; polarization_and_time cb) (mkWorld s g) = finished cb s g.
Proof.
  unfold dose_increment, polarization_and_time, finished, dosed, clamp,
    microwave_effect.
  run_M. destruct (Rgt_dec cb 0); cbn.
  - destruct (pydiv _ _); cbn; [|reflexivity].
    destruct (single_exponential_polarization _ _ _); reflexivity.
  - destruct (single_exponential_polarization _ _ _); reflexivity.
Qed.

Lemma step_spec (a : option (gmap string R)) (s : t) (g : Rng) :
  step a (mkWorld s g) =
  let r := trip_result (overridden a s) g in
  finished (fst r) (self (snd r)) (rng (snd r)).
Proof.
  rewrite step_blocks.
  change ((apply_action a;; current_beam ← beam_trip_logic;
           dose_increment current_beam;; polarization_and_time current_beam)
            (mkWorld s g))
    with (match apply_action a (mkWorld s g) with
          | (Return _, w1) =>
              match beam_trip_logic w1 with
              | (Return cb, w2) =>
                  (dose_increment cb;; polarization_and_time cb) w2
              | (Raise e, w2) => (Raise e, w2)
              end
          | (Raise e, w1) => (Raise e, w1)
          end).
  rewrite apply_action_spec, beam_trip_logic_spec.
  cbv zeta.
  destruct (snd (trip_result (overridden a s) g)) as [s2 g2].
  apply finish_spec.
Qed.

Lemma step_to_combine_spec (a : option (gmap string R)) (s : t) (g : Rng) :
  step_to_combine a (mkWorld s g) =
  let r := trip_result (overridden a s) g in
  combined (fst r) (self (snd r)) (rng (snd r)).
Proof.
  change (step_to_combine a (mkWorld s g))
    with (match apply_action a (mkWorld s g) with
          | (Return _, w1) =>
              match beam_trip_logic w1 with
              | (Return cb, w2) =>
                  (dose_increment cb;;
                   s ← get_self;
                   base_pol ← lift (single_exponential_polarization
                                      (accumulated_dose s) (pmax s) (phi s));
                   assign (set_polarization
                             (base_pol
                              + - (microwave_frequency s - 140.1) * 0.0001));;
                   s ← get_self;
                   mret (polarization s)) w2
              | (Raise e, w2) => (Raise e, w2)
              end
          | (Raise e, w1) => (Raise e, w1)
          end).
  rewrite apply_action_spec, beam_trip_logic_spec. cbv zeta.
  destruct (trip_result (overridden a s) g) as [cb [s2 g2]]. cbn [fst snd self rng].
  unfold dose_increment, combined, dosed, microwave_effect. run_M.
  destruct (Rgt_dec cb 0); cbn.
  - destruct (pydiv _ _); cbn; [|reflexivity].
    destruct (single_exponential_polarization _ _ _); reflexivity.
  - destruct (single_exponential_polarization _ _ _); reflexivity.
Qed.

Ltac run_step :=
  rewrite step_spec;
  unfold overridden, trip_result; fields; decide_R; fields;
  unfold finished, dosed; fields; decide_R;
  unfold pydiv; fields; decide_R; fields;
  unfold single_exponential_polarization, pydiv; fields; decide_R; fields.

(** ** What the sections leave alone *)

Lemma overridden_frame (a : option (gmap string R)) (s : t) :
  let s1 := overridden a s in
  time_step s1 = time_step s /\ beam_area s1 = beam_area s /\
  pmax s1 = pmax s /\ phi s1 = phi s /\
  accumulated_dose s1 = accumulated_dose s /\
  polarization s1 = polarization s /\
  time_elapsed s1 = time_elapsed s /\
  in_trip s1 = in_trip s /\ trip_start s1 = trip_start s /\
  trip_duration s1 = trip_duration s /\
  min_trip_duration s1 = min_trip_duration s /\
  max_trip_duration s1 = max_trip_duration s /\
  trip_prob_per_step s1 = trip_prob_per_step s.
Proof.
  unfold overridden.
  destruct (item a "beam_current"), (item a "microwave_frequency");
    cbn; repeat split; reflexivity.
Qed.

Lemma overridden_beam_current (a : option (gmap string R)) (s : t) :
  beam_current (overridden a s)
  = default (beam_current s) (item a "beam_current").
Proof.
  unfold overridden.
  destruct (item a "beam_current"), (item a "microwave_frequency");
    reflexivity.
Qed.

Lemma overridden_frequency (d : gmap string R) (f : R) (s : t) :
  overridden (Some (<["microwave_frequency" := f]> d)) s
  = set_microwave_frequency f
      (match d !! "beam_current" with
       | Some v => set_beam_current v s
       | None => s
       end).
Proof.
  unfold overridden, item. cbn.
  rewrite lookup_insert_eq.
  rewrite lookup_insert_ne by discriminate.
  reflexivity.
Qed.

Lemma trip_result_frame (s : t) (g : Rng) :
  let s2 := self (snd (trip_result s g)) in
  beam_current s2 = beam_current s /\
  microwave_frequency s2 = microwave_frequency s /\
  time_step s2 = time_step s /\ beam_area s2 = beam_area s /\
  pmax s2 = pmax s /\ phi s2 = phi s /\
  accumulated_dose s2 = accumulated_dose s /\
  polarization s2 = polarization s /\
  time_elapsed s2 = time_elapsed s /\
  min_trip_duration s2 = min_trip_duration s /\
  max_trip_duration s2 = max_trip_duration s /\
  trip_prob_per_step s2 = trip_prob_per_step s.
Proof.
  unfold trip_result.
  destruct (in_trip s); [destruct (Rgt_dec _ _)|destruct (Rlt_dec _ _)];
    cbn; repeat split; reflexivity.
Qed.

Lemma trip_result_normal (s : t) (g : Rng) :
  in_trip s = false ->
  let u := draws g (cursor g) in
  let p_trip := trip_prob_per_step s * time_step s in
  (u < p_trip ->
   trip_result s g
   = (0,
      mkWorld
        (set_trip_duration
           (min_trip_duration s
            + (max_trip_duration s - min_trip_duration s)
              * draws g (S (cursor g)))
           (set_trip_start (time_elapsed s) (set_in_trip true s)))
        (mkRng (draws g) (S (S (cursor g)))))) /\
  (~ u < p_trip ->
   trip_result s g
   = (beam_current s, mkWorld s (mkRng (draws g) (S (cursor g))))).
Proof.
  intros Hin. unfold trip_result. rewrite Hin. cbv zeta.
  destruct (Rlt_dec _ _); split; intros; (reflexivity || contradiction).
Qed.

Lemma trip_result_waiting (s : t) (g : Rng) :
  in_trip s = true ->
  time_elapsed s - trip_start s <= trip_duration s ->
  trip_result s g = (0, mkWorld s g).
Proof.
  intros Hin Hle. unfold trip_result. rewrite Hin.
  destruct (Rgt_dec _ _); [lra|reflexivity].
Qed.

Lemma trip_result_frequency (f : R) (s : t) (g : Rng) :
  trip_result (set_microwave_frequency f s) g
  = (fst (trip_result s g),
     mkWorld (set_microwave_frequency f (self (snd (trip_result s g))))
             (rng (snd (trip_result s g)))).
Proof.
  unfold trip_result. cbn.
  destruct (in_trip s); [destruct (Rgt_dec _ _)|destruct (Rlt_dec _ _)];
    reflexivity.
Qed.

Lemma dosed_frame (cb : R) (s s3 : t) :
  dosed cb s = Return s3 ->
  beam_current s3 = beam_current s /\
  microwave_frequency s3 = microwave_frequency s /\
  time_step s3 = time_step s /\ beam_area s3 = beam_area s /\
  pmax s3 = pmax s /\ phi s3 = phi s /\
  polarization s3 = polarization s /\
  time_elapsed s3 = time_elapsed s /\
  in_trip s3 = in_trip s /\ trip_start s3 = trip_start s /\
  trip_duration s3 = trip_duration s /\
  min_trip_duration s3 = min_trip_duration s /\
  max_trip_duration s3 = max_trip_duration s /\
  trip_prob_per_step s3 = trip_prob_per_step s.
Proof.
  unfold dosed. destruct (Rgt_dec cb 0).
  - destruct (pydiv _ _); cbn; [|discriminate].
    intros H; injection H as <-. cbn. repeat split; reflexivity.
  - intros H; injection H as <-. repeat split; reflexivity.
Qed.

Lemma combined_frequency (cb f : R) (s : t) (g : Rng) :
  combined cb (set_microwave_frequency f s) g
  = match dosed cb s with
    | Raise e => (Raise e, mkWorld (set_microwave_frequency f s) g)
    | Return s3 =>
        match single_exponential_polarization
                (accumulated_dose s3) (pmax s3) (phi s3) with
        | Raise e => (Raise e, mkWorld (set_microwave_frequency f s3) g)
        | Return base_pol =>
            (Return (base_pol + microwave_effect f),
             mkWorld (set_polarization (base_pol + microwave_effect f)
                        (set_microwave_frequency f s3)) g)
        end
    end.
Proof.
  unfold combined, dosed. cbn.
  destruct (Rgt_dec cb 0); cbn.
  - destruct (pydiv _ _); cbn; [|reflexivity].
    destruct (single_exponential_polarization _ _ _); reflexivity.
  - destruct (single_exponential_polarization _ _ _); reflexivity.
Qed.

(** ** One call of [step] *)

Lemma step_frame (a : option (gmap string R)) (w : World) :
  let w' := snd (step a w) in
  time_step (self w') = time_step (self w) /\
  beam_area (self w') = beam_area (self w) /\
  pmax (self w') = pmax (self w) /\
  phi (self w') = phi (self w) /\
  min_trip_duration (self w') = min_trip_duration (self w) /\
  max_trip_duration (self w') = max_trip_duration (self w) /\
  trip_prob_per_step (self w') = trip_prob_per_step (self w).
Proof.
  destruct w as [s g]. rewrite step_spec. cbv zeta.
  pose proof (overridden_frame a s) as Ho.
  pose proof (trip_result_frame (overridden a s) g) as Ht.
  cbv zeta in Ho, Ht.
  destruct (trip_result (overridden a s) g) as [cb [s2 g2]]. cbn in *.
  unfold finished.
  destruct (dosed cb s2) as [s3|e] eqn:Hd.
  - apply dosed_frame in Hd.
    destruct (single_exponential_polarization _ _ _); cbn;
      intuition congruence.
  - cbn. intuition congruence.
Qed.

Lemma step_raise (a : option (gmap string R)) (w : World) (e : exn) :
  fst (step a w) = Raise e -> zero_divisor (self w).
Proof.
  destruct w as [s g]. rewrite step_spec. cbv zeta.
  pose proof (overridden_frame a s) as Ho.
  pose proof (trip_result_frame (overridden a s) g) as Ht.
  cbv zeta in Ho, Ht.
  destruct (trip_result (overridden a s) g) as [cb [s2 g2]]. cbn in *.
  unfold finished, zero_divisor.
  destruct (dosed cb s2) as [s3|e'] eqn:Hd.
  - pose proof (dosed_frame _ _ _ Hd) as Hf.
    unfold single_exponential_polarization.
    destruct (Rle_dec _ _); [discriminate|].
    destruct (pydiv _ (phi s3)) eqn:Hq; [discriminate|].
    apply pydiv_raise in Hq. intros _. right. intuition congruence.
  - unfold dosed in Hd. destruct (Rgt_dec cb 0); [|discriminate].
    destruct (pydiv _ _) eqn:Hq; [discriminate|].
    apply pydiv_raise in Hq. intros _. left.
    pose proof ELECTRON_CHARGE_pos.
    assert (beam_area s2 = 0) by nra. intuition congruence.
Qed.

Lemma step_polarization (a : option (gmap string R)) (w : World) :
  match step a w with
  | (Return snap, w') =>
      in_unit_interval (polarization (self w')) /\
      in_unit_interval (sd_polarization snap)
  | (Raise _, w') => polarization (self w') = polarization (self w)
  end.
Proof.
  destruct w as [s g]. rewrite step_spec. cbv zeta.
  pose proof (overridden_frame a s) as Ho.
  pose proof (trip_result_frame (overridden a s) g) as Ht.
  cbv zeta in Ho, Ht.
  destruct (trip_result (overridden a s) g) as [cb [s2 g2]]. cbn in *.
  unfold finished.
  destruct (dosed cb s2) as [s3|e] eqn:Hd.
  - apply dosed_frame in Hd.
    destruct (single_exponential_polarization _ _ _); cbn.
    + split; apply clamp_in_unit_interval.
    + intuition congruence.
  - cbn. intuition congruence.
Qed.

Lemma steps_polarization (actions : list (option (gmap string R))) :
  forall w : World,
  Forall (fun rw =>
            match fst rw with
            | Return snap =>
                in_unit_interval (polarization (self (snd rw))) /\
                in_unit_interval (sd_polarization snap)
            | Raise _ => True
            end) (steps actions w).
Proof.
  induction actions as [|a rest IH]; intros w; cbn.
  - constructor.
  - constructor; [|apply IH].
    pose proof (step_polarization a w) as H.
    destruct (step a w) as [[snap|e] w']; cbn; [exact H|exact I].
Qed.

Lemma step_polarization_value (a : option (gmap string R)) (w : World) :
  match step a w with
  | (Return snap, w') =>
      sd_polarization snap = polarization (self w') /\
      sd_microwave_frequency snap = microwave_frequency (self w') /\
      polarization (self w')
      = clamp (base_polarization (accumulated_dose (self w'))
                 (pmax (self w')) (phi (self w'))
               + microwave_effect (microwave_frequency (self w')))
  | (Raise _, _) => True
  end.
Proof.
  destruct w as [s g]. rewrite step_spec. cbv zeta.
  destruct (trip_result (overridden a s) g) as [cb [s2 g2]]. cbn.
  unfold finished.
  destruct (dosed cb s2) as [s3|e] eqn:Hd; [|exact I].
  destruct (single_exponential_polarization _ _ _) as [b|] eqn:Hb; [|exact I].
  apply single_exponential_polarization_inv in Hb. subst b. cbn.
  repeat split; reflexivity.
Qed.

Lemma step_dose (a : option (gmap string R)) (w : World) :
  let rw := step a w in
  match fst rw with
  | Return snap =>
      sd_accumulated_dose snap = accumulated_dose (self (snd rw)) /\
      (sd_beam_current snap > 0 ->
       accumulated_dose (self (snd rw)) =
       accumulated_dose (self w)
       + (sd_beam_current snap * time_step (self w))
         / (ELECTRON_CHARGE * beam_area (self w))) /\
      (~ sd_beam_current snap > 0 ->
       accumulated_dose (self (snd rw)) = accumulated_dose (self w))
  | Raise _ => True
  end.
Proof.
  destruct w as [s g]. rewrite step_spec. cbv zeta.
  pose proof (overridden_frame a s) as Ho.
  pose proof (trip_result_frame (overridden a s) g) as Ht.
  cbv zeta in Ho, Ht.
  destruct (trip_result (overridden a s) g) as [cb [s2 g2]]. cbn in *.
  unfold finished, dosed.
  destruct (Rgt_dec cb 0) as [Hcb|Hcb].
  - destruct (pydiv _ _) as [d|] eqn:Hq; cbn; [|exact I].
    apply pydiv_inv in Hq as [_ ->].
    destruct (single_exponential_polarization _ _ _); cbn; [|exact I].
    split; [reflexivity|]. split; [|contradiction].
    intros _.
    replace (time_step s2) with (time_step s) by intuition congruence.
    replace (beam_area s2) with (beam_area s) by intuition congruence.
    replace (accumulated_dose s2) with (accumulated_dose s)
      by intuition congruence.
    reflexivity.
  - destruct (single_exponential_polarization _ _ _); cbn; [|exact I].
    split; [reflexivity|]. split; [contradiction|].
    intros _. intuition congruence.
Qed.

Lemma step_dose_monotone (a : option (gmap string R)) (w : World) :
  0 < time_step (self w) -> 0 < beam_area (self w) ->
  accumulated_dose (self w) <= accumulated_dose (self (snd (step a w))).
Proof.
  intros Hdt Harea.
  destruct w as [s g]. rewrite step_spec. cbv zeta.
  pose proof (overridden_frame a s) as Ho.
  pose proof (trip_result_frame (overridden a s) g) as Ht.
  cbv zeta in Ho, Ht.
  destruct (trip_result (overridden a s) g) as [cb [s2 g2]]. cbn in *.
  assert (Hs2 : time_step s2 = time_step s /\ beam_area s2 = beam_area s /\
                accumulated_dose s2 = accumulated_dose s)
    by intuition congruence.
  destruct Hs2 as (Hts & Hba & Hdose).
  unfold finished, dosed.
  destruct (Rgt_dec cb 0) as [Hcb|Hcb].
  - destruct (pydiv _ _) as [d|] eqn:Hq; cbn; [|lra].
    apply pydiv_inv in Hq as [_ ->].
    assert (Hd : 0 < (cb * time_step s2) / (ELECTRON_CHARGE * beam_area s2)).
    { pose proof ELECTRON_CHARGE_pos.
      apply Rdiv_lt_0_compat; apply Rmult_lt_0_compat; lra. }
    destruct (single_exponential_polarization _ _ _); cbn; lra.
  - destruct (single_exponential_polarization _ _ _); cbn; lra.
Qed.

Lemma after_app (l1 l2 : list (option (gmap string R))) (w : World) :
  after (l1 ++ l2) w = after l2 (after l1 w).
Proof. apply fold_left_app. Qed.

Lemma after_frame (actions : list (option (gmap string R))) :
  forall w : World,
  time_step (self (after actions w)) = time_step (self w) /\
  beam_area (self (after actions w)) = beam_area (self w).
Proof.
  induction actions as [|a rest IH]; intros w; cbn.
  - split; reflexivity.
  - pose proof (step_frame a w) as (Hts & Hba & _).
    destruct (IH (snd (step a w))) as [H1 H2]. unfold after in H1, H2.
    split; congruence.
Qed.

Lemma after_dose_monotone (actions : list (option (gmap string R))) :
  forall w : World,
  0 < time_step (self w) -> 0 < beam_area (self w) ->
  accumulated_dose (self w) <= accumulated_dose (self (after actions w)).
Proof.
  induction actions as [|a rest IH]; intros w Hdt Harea; cbn.
  - lra.
  - pose proof (step_frame a w) as (Hts & Hba & _).
    pose proof (step_dose_monotone a w Hdt Harea).
    specialize (IH (snd (step a w))).
    unfold after in IH. rewrite Hts, Hba in IH.
    specialize (IH Hdt Harea). lra.
Qed.

Lemma step_trip (a : option (gmap string R)) (w : World) :
  let r := trip_result (overridden a (self w)) (rng w) in
  let rw := step a w in
  in_trip (self (snd rw)) = in_trip (self (snd r)) /\
  trip_start (self (snd rw)) = trip_start (self (snd r)) /\
  trip_duration (self (snd rw)) = trip_duration (self (snd r)) /\
  beam_current (self (snd rw))
  = default (beam_current (self w)) (item a "beam_current") /\
  rng (snd rw) = rng (snd r) /\
  match fst rw with
  | Return snap =>
      sd_beam_current snap = fst r /\
      sd_in_trip snap = in_trip (self (snd r)) /\
      sd_time snap = time_elapsed (self (snd rw)) /\
      time_elapsed (self (snd rw))
      = time_elapsed (self w) + time_step (self w)
  | Raise _ => (fst r > 0 /\ beam_area (self w) = 0) \/ phi (self w) = 0
  end.
Proof.
  destruct w as [s g]. rewrite step_spec. cbv zeta.
  pose proof (overridden_frame a s) as Ho.
  pose proof (overridden_beam_current a s) as Hbc.
  pose proof (trip_result_frame (overridden a s) g) as Ht.
  cbv zeta in Ho, Ht. cbn [self rng].
  destruct (trip_result (overridden a s) g) as [cb [s2 g2]]. cbn in *.
  unfold finished.
  destruct (dosed cb s2) as [s3|e] eqn:Hd.
  - pose proof (dosed_frame _ _ _ Hd) as Hf.
    destruct (single_exponential_polarization _ _ _) as [b|] eqn:Hb; cbn.
    + repeat split; intuition congruence.
    + repeat split; try (intuition congruence).
      unfold single_exponential_polarization in Hb.
      destruct (Rle_dec _ _); [discriminate|].
      destruct (pydiv _ (phi s3)) eqn:Hq; [discriminate|].
      apply pydiv_raise in Hq. right. intuition congruence.
  - cbn. repeat split; try (intuition congruence).
    unfold dosed in Hd. destruct (Rgt_dec cb 0) as [Hcb|Hcb]; [|discriminate].
    destruct (pydiv _ _) eqn:Hq; [discriminate|].
    apply pydiv_raise in Hq. left. split; [exact Hcb|].
    pose proof ELECTRON_CHARGE_pos.
    assert (beam_area s2 = 0) by nra. intuition congruence.
Qed.

Lemma step_from_normal (a : option (gmap string R)) (w : World) :
  in_trip (self w) = false ->
  let u := draws (rng w) (cursor (rng w)) in
  let u2 := draws (rng w) (S (cursor (rng w))) in
  let p_trip := trip_prob_per_step (self w) * time_step (self w) in
  let rw := step a w in
  (in_trip (self (snd rw)) = true <-> u < p_trip) /\
  (u < p_trip ->
   trip_start (self (snd rw)) = time_elapsed (self w) /\
   trip_duration (self (snd rw))
   = min_trip_duration (self w)
     + (max_trip_duration (self w) - min_trip_duration (self w)) * u2 /\
   match fst rw with
   | Return snap => sd_beam_current snap = 0 /\ sd_in_trip snap = true
   | Raise _ => phi (self w) = 0
   end) /\
  (~ u < p_trip ->
   match fst rw with
   | Return snap =>
       sd_beam_current snap = beam_current (self (snd rw)) /\
       sd_in_trip snap = false
   | Raise _ => beam_area (self w) = 0 \/ phi (self w) = 0
   end).
Proof.
  intros Hin. cbv zeta.
  pose proof (step_trip a w) as H. cbv zeta in H.
  pose proof (overridden_frame a (self w)) as Ho. cbv zeta in Ho.
  assert (Hin1 : in_trip (overridden a (self w)) = false)
    by intuition congruence.
  destruct (trip_result_normal _ (rng w) Hin1) as [Hyes Hno].
  cbv zeta in Hyes, Hno.
  replace (trip_prob_per_step (overridden a (self w)))
    with (trip_prob_per_step (self w)) in * by (symmetry; apply Ho).
  replace (time_step (overridden a (self w)))
    with (time_step (self w)) in * by (symmetry; apply Ho).
  replace (time_elapsed (overridden a (self w)))
    with (time_elapsed (self w)) in * by (symmetry; apply Ho).
  replace (min_trip_duration (overridden a (self w)))
    with (min_trip_duration (self w)) in * by (symmetry; apply Ho).
  replace (max_trip_duration (overridden a (self w)))
    with (max_trip_duration (self w)) in * by (symmetry; apply Ho).
  destruct (Rlt_dec (draws (rng w) (cursor (rng w)))
              (trip_prob_per_step (self w) * time_step (self w)))
    as [Hu|Hu].
  - rewrite (Hyes Hu) in H. cbn in H.
    destruct H as (H1 & H2 & H3 & _ & _ & H6).
    split; [split; intros; assumption|].
    split; [|intros; contradiction].
    intros _. split; [exact H2|]. split; [exact H3|].
    destruct (fst (step a w)) as [snap|e].
    + split; apply H6.
    + destruct H6 as [[Hpos _]|Hz]; [lra|exact Hz].
  - rewrite (Hno Hu) in H. cbn in H.
    destruct H as (H1 & _ & _ & H4 & _ & H6).
    split; [split; intros; [congruence|contradiction]|].
    split; [intros; contradiction|].
    intros _.
    destruct (fst (step a w)) as [snap|e].
    + destruct H6 as (Hcb & Hit & _).
      rewrite Hcb, Hit, H4, overridden_beam_current.
      split; [reflexivity|]. intuition congruence.
    + destruct H6 as [[_ Hz]|Hz]; [left|right]; exact Hz.
Qed.

Lemma step_while_tripped (a : option (gmap string R)) (w : World) :
  in_trip (self w) = true ->
  time_elapsed (self w) - trip_start (self w) <= trip_duration (self w) ->
  let rw := step a w in
  in_trip (self (snd rw)) = true /\
  trip_start (self (snd rw)) = trip_start (self w) /\
  trip_duration (self (snd rw)) = trip_duration (self w) /\
  match fst rw with
  | Return snap =>
      sd_beam_current snap = 0 /\ sd_in_trip snap = true /\
      time_elapsed (self (snd rw)) = time_elapsed (self w) + time_step (self w)
  | Raise _ => phi (self w) = 0
  end.
Proof.
  intros Hin Hle. cbv zeta.
  pose proof (step_trip a w) as H. cbv zeta in H.
  pose proof (overridden_frame a (self w)) as Ho. cbv zeta in Ho.
  rewrite trip_result_waiting in H.
  2: intuition congruence.
  2: { replace (time_elapsed (overridden a (self w)))
         with (time_elapsed (self w)) by (symmetry; apply Ho).
       replace (trip_start (overridden a (self w)))
         with (trip_start (self w)) by (symmetry; apply Ho).
       replace (trip_duration (overridden a (self w)))
         with (trip_duration (self w)) by (symmetry; apply Ho).
       exact Hle. }
  cbn in H. destruct H as (H1 & H2 & H3 & _ & _ & H6).
  split; [intuition congruence|]. split; [intuition congruence|].
  split; [intuition congruence|].
  destruct (fst (step a w)) as [snap|e].
  - destruct H6 as (Hcb & Hit & _ & Htime).
    split; [exact Hcb|]. split; [intuition congruence|exact Htime].
  - destruct H6 as [[Hpos _]|Hz]; [lra|exact Hz].
Qed.

Lemma steps_while_tripped (actions : list (option (gmap string R))) :
  forall w : World,
  in_trip (self w) = true ->
  phi (self w) <> 0 ->
  (forall k : nat, (k < length actions)%nat ->
     time_elapsed (self w) + INR k * time_step (self w) - trip_start (self w)
     <= trip_duration (self w)) ->
  Forall (fun rw => exists snap : StepData,
            fst rw = Return snap /\ sd_beam_current snap = 0 /\
            sd_in_trip snap = true /\ in_trip (self (snd rw)) = true)
    (steps actions w).
Proof.
  induction actions as [|a rest IH]; intros w Hin Hphi Hwait; cbn.
  - constructor.
  - assert (H0 : time_elapsed (self w) - trip_start (self w)
                 <= trip_duration (self w)).
    { specialize (Hwait 0%nat ltac:(cbn; lia)). cbn in Hwait. lra. }
    pose proof (step_while_tripped a w Hin H0) as H. cbv zeta in H.
    pose proof (step_frame a w) as (Hts & _ & _ & Hph & _).
    destruct H as (H1 & H2 & H3 & H4).
    destruct (fst (step a w)) as [snap|e] eqn:Hr; [|contradiction].
    destruct H4 as (Hcb & Hit & Htime).
    constructor.
    + exists snap. rewrite Hr. repeat split; assumption.
    + apply IH; [exact H1|congruence|].
      intros k Hk. rewrite Htime, Hts, H2, H3.
      specialize (Hwait (S k) ltac:(cbn; lia)).
      rewrite S_INR in Hwait. lra.
Qed.

Lemma step_clamps_combined (a : option (gmap string R)) (w : World) :
  match step_to_combine a w, step a w with
  | (Return raw, w1), (Return snap, w') =>
      sd_polarization snap = clamp raw /\
      polarization (self w') = clamp raw /\
      polarization (self w1) = raw
  | (Raise e1, w1), (Raise e2, w') => e1 = e2 /\ w1 = w'
  | _, _ => False
  end.
Proof.
  destruct w as [s g]. rewrite step_spec, step_to_combine_spec. cbv zeta.
  destruct (trip_result (overridden a s) g) as [cb [s2 g2]]. cbn [fst snd self rng].
  unfold finished, combined.
  destruct (dosed cb s2); [|split; reflexivity].
  destruct (single_exponential_polarization _ _ _); cbn;
    repeat split; reflexivity.
Qed.

(** ** The claims *)

(** C1 (as the code has it): [__init__] validates nothing.  For every
    combination of arguments, a non-positive [time_step] or [beam_area] and
    a [pmax] outside (0,1] included, the constructor raises no exception
    and returns an engine that holds [beam_current], [time_step] and
    [beam_area] as given and the [pmax] argument as initial polarization. *)
Theorem construction_never_fails
    (bc ts ba mf pm ph rate : R) (dur : R * R) :
  exists s : t,
    __init__ bc ts ba mf pm ph rate dur = Return s /\
    beam_current s = bc /\ time_step s = ts /\ beam_area s = ba /\
    polarization s = pm.
Proof.
  eexists. split; [apply init_returns|]. cbn. repeat split; reflexivity.
Qed.

(** C1 as stated fails: with [time_step = -1], [beam_area = 0] and
    [pmax = 2], all three invalid, [Simulation(2e-9, -1, 0, 140.1, 2)]
    yields an engine. *)
Lemma invalid_parameters_accepted :
  (-1 <= 0 /\ 0 <= 0 /\ ~ (0 < 2 <= 1)) /\
  exists s : t,
    __init__ 2e-9 (-1) 0 140.1 2 default_phi 12 (20, 300) = Return s.
Proof.
  split; [lra|]. eexists. apply init_returns.
Qed.

(** C2 (amended): from every engine state, with any override and any random
    draws, a call of [step] that returns leaves the polarization attribute
    in [0, 1] and returns a snapshot whose polarization is in [0, 1]; a call
    that raises leaves the attribute as it was; and so along every sequence
    of calls. *)
Theorem polarization_bounds (w : World) :
  (forall a : option (gmap string R),
     match step a w with
     | (Return snap, w') =>
         in_unit_interval (polarization (self w')) /\
         in_unit_interval (sd_polarization snap)
     | (Raise _, w') => polarization (self w') = polarization (self w)
     end) /\
  (forall actions : list (option (gmap string R)),
     Forall (fun rw =>
               match fst rw with
               | Return snap =>
                   in_unit_interval (polarization (self (snd rw))) /\
                   in_unit_interval (sd_polarization snap)
               | Raise _ => True
               end) (steps actions w)).
Proof.
  split.
  - intros a. apply step_polarization.
  - intros actions. apply steps_polarization.
Qed.

(** C2 as stated fails: [Simulation(2e-9, 1, 0, 140.1, 2)] is constructed
    with polarization 2; its [step] divides by [ELECTRON_CHARGE * 0] and
    raises before the clamp, so after the call the polarization is still 2,
    outside [0, 1]. *)
Lemma polarization_out_of_bounds_after_raising_step :
  __init__ 2e-9 1 0 140.1 2 default_phi 12 (20, 300)
  = Return engine_unclamped /\
  exists w' : World,
    step None (mkWorld engine_unclamped rng_half)
    = (Raise ZeroDivisionError, w') /\
    polarization (self w') = 2 /\
    ~ in_unit_interval (polarization (self w')).
Proof.
  split; [apply init_returns|].
  unfold engine_unclamped, rng_half.
  run_step.
  eexists. split; [reflexivity|]. fields.
  split; [reflexivity|]. unfold in_unit_interval. lra.
Qed.

(** C3 (amended): for an engine whose [time_step] and [beam_area] are
    positive, the accumulated dose never decreases along a sequence of
    [step] calls; on a single call that returns it grows by exactly
    [(delivered * time_step) / (ELECTRON_CHARGE * beam_area)] when the
    delivered current is strictly positive and is unchanged otherwise.  With
    a positive area the only way not to return is [phi = 0]. *)
Theorem dose_accumulation (w : World) :
  0 < time_step (self w) -> 0 < beam_area (self w) ->
  (forall actions1 actions2 : list (option (gmap string R)),
     accumulated_dose (self (after actions1 w))
     <= accumulated_dose (self (after (actions1 ++ actions2) w))) /\
  (forall a : option (gmap string R),
     let rw := step a w in
     accumulated_dose (self w) <= accumulated_dose (self (snd rw)) /\
     match fst rw with
     | Return snap =>
         sd_accumulated_dose snap = accumulated_dose (self (snd rw)) /\
         (sd_beam_current snap > 0 ->
          accumulated_dose (self (snd rw)) =
          accumulated_dose (self w)
          + (sd_beam_current snap * time_step (self w))
            / (ELECTRON_CHARGE * beam_area (self w))) /\
         (~ sd_beam_current snap > 0 ->
          accumulated_dose (self (snd rw)) = accumulated_dose (self w))
     | Raise _ => phi (self w) = 0
     end).
Proof.
  intros Hdt Harea. split.
  - intros l1 l2. rewrite after_app.
    destruct (after_frame l1 w) as [Hts Hba].
    apply after_dose_monotone; congruence.
  - intros a. cbv zeta. split; [apply step_dose_monotone; assumption|].
    pose proof (step_dose a w) as H. cbv zeta in H.
    destruct (fst (step a w)) as [snap|e] eqn:Hr; [exact H|].
    apply step_raise in Hr. destruct Hr as [Hz|Hz]; [lra|exact Hz].
Qed.

(** The default engine meets the hypotheses of C3. *)
Lemma dose_accumulation_witness :
  (0 < time_step engine_default /\ 0 < beam_area engine_default) /\
  accumulated_dose engine_default
  <= accumulated_dose
       (self (snd (step None (mkWorld engine_default rng_half)))) /\
  accumulated_dose (self (after [None] (mkWorld engine_default rng_half)))
  <= accumulated_dose
       (self (after ([None] ++ [None]) (mkWorld engine_default rng_half))).
Proof.
  assert (H : 0 < time_step engine_default /\ 0 < beam_area engine_default)
    by (cbn; split; lra).
  split; [exact H|].
  destruct (dose_accumulation (mkWorld engine_default rng_half)
              (proj1 H) (proj2 H)) as [Hseq Hone].
  split.
  - apply (Hone None).
  - apply (Hseq [None] [None]).
Defined.

(** C3 as stated fails: [Simulation(1, 1, -1)] is constructed without
    complaint, its first [step] delivers a positive current and the dose
    goes from [0] to [1 / (ELECTRON_CHARGE * -1)], below zero. *)
Lemma dose_decreases_with_negative_area :
  __init__ 1 1 (-1) 140.1 0.95 default_phi 12 (20, 300)
  = Return engine_negative_area /\
  exists (snap : StepData) (w' : World),
    step None (mkWorld engine_negative_area rng_half) = (Return snap, w') /\
    sd_beam_current snap > 0 /\
    accumulated_dose (self w') < accumulated_dose engine_negative_area.
Proof.
  split; [apply init_returns|].
  unfold engine_negative_area, rng_half.
  run_step.
  eexists. eexists. split; [reflexivity|]. fields. split; arith.
Qed.

(** C4: [single_exponential_polarization] returns [pmax] when the dose is
    at most [1e-12] and [pmax * exp (- dose / phi)] otherwise; and a [step]
    taken at microwave frequency [140.1] by an engine with [pmax] in [0, 1]
    and positive [phi] (all that [__init__] builds: 0.95 and 25.6e15 * 1.13)
    returns exactly this base value as polarization, [pmax] itself when the
    dose is at most [1e-12].  Such an engine fails to return only when
    [beam_area = 0]. *)
Theorem base_polarization_law :
  (forall dose pm ph : R,
     (dose <= 1e-12 ->
      single_exponential_polarization dose pm ph = Return pm) /\
     (~ dose <= 1e-12 -> ph <> 0 ->
      single_exponential_polarization dose pm ph
      = Return (pm * exp (- dose / ph)))) /\
  (forall (w : World) (a : option (gmap string R)),
     0 <= pmax (self w) <= 1 -> 0 < phi (self w) ->
     match step a w with
     | (Return snap, w') =>
         microwave_frequency (self w') = 140.1 ->
         let base := if Rle_dec (accumulated_dose (self w')) 1e-12
                     then pmax (self w')
                     else pmax (self w')
                          * exp (- accumulated_dose (self w')
                                 / phi (self w')) in
         sd_polarization snap = base /\ polarization (self w') = base /\
         (accumulated_dose (self w') <= 1e-12 ->
          sd_polarization snap = pmax (self w'))
     | (Raise _, _) => beam_area (self w) = 0
     end).
Proof.
  split.
  - intros dose pm ph. split.
    + intros H. rewrite single_exponential_polarization_value by (right; exact H).
      unfold base_polarization. destruct (Rle_dec dose 1e-12); [reflexivity|contradiction].
    + intros H Hph. rewrite single_exponential_polarization_value by (left; exact Hph).
      unfold base_polarization. destruct (Rle_dec dose 1e-12); [contradiction|reflexivity].
  - intros w a Hpm Hph.
    pose proof (step_polarization_value a w) as Hv.
    pose proof (step_frame a w) as (_ & _ & Hpmax & Hphi & _).
    pose proof (step_raise a w) as Hr.
    destruct (step a w) as [[snap|e] w']; cbn in *.
    + intros Hf. destruct Hv as (Hs & _ & Hp).
      rewrite Hf, microwave_effect_reference, Rplus_0_r in Hp.
      rewrite clamp_id in Hp
        by (apply base_polarization_in_unit_interval; rewrite ?Hpmax, ?Hphi; assumption).
      unfold base_polarization in Hp. cbv zeta.
      split; [rewrite Hs; exact Hp|]. split; [exact Hp|].
      intros Hz. rewrite Hs, Hp.
      destruct (Rle_dec _ _); [reflexivity|contradiction].
    + destruct (Hr e eq_refl) as [Hz|Hz]; [exact Hz|lra].
Qed.

(** The scenario of the specification: current 2e-9, time step 1, area 1,
    frequency 140.1, no trip; after one step the polarization is
    [0.95 * exp (- dose / phi)] for the dose delivered. *)
Lemma base_polarization_law_witness :
  (0 <= pmax engine_default <= 1 /\ 0 < phi engine_default) /\
  exists (snap : StepData) (w' : World),
    step None (mkWorld engine_default rng_half) = (Return snap, w') /\
    microwave_frequency (self w') = 140.1 /\
    sd_polarization snap
    = 0.95 * exp (- (0 + 2e-9 * 1 / (ELECTRON_CHARGE * 1))
                  / (25.6e15 * 1.13)).
Proof.
  assert (H : 0 <= pmax engine_default <= 1 /\ 0 < phi engine_default)
    by (fields; lra).
  split; [exact H|].
  pose proof (proj2 base_polarization_law (mkWorld engine_default rng_half)
                None (proj1 H) (proj2 H)) as L.
  revert L. unfold engine_default, rng_half. run_step.
  intros L. eexists. eexists. split; [reflexivity|]. fields.
  split; [reflexivity|].
  destruct (L eq_refl) as (Hs & _). revert Hs. fields.
  destruct (Rle_dec _ _) as [Hle|Hle]; [exfalso; arith|].
  intros Hs. exact Hs.
Defined.

(** C5: a [step] that starts tripped with
    [time_elapsed - trip_start > trip_duration] leaves the trip in that very
    call and delivers [beam_current] (the override, when the action has one)
    in the same call; it can fail to return only on a zero divisor. *)
Theorem trip_end_resumes_beam (w : World) (a : option (gmap string R)) :
  in_trip (self w) = true ->
  time_elapsed (self w) - trip_start (self w) > trip_duration (self w) ->
  let rw := step a w in
  in_trip (self (snd rw)) = false /\
  beam_current (self (snd rw))
  = default (beam_current (self w)) (item a "beam_current") /\
  match fst rw with
  | Return snap =>
      sd_in_trip snap = false /\
      sd_beam_current snap = beam_current (self (snd rw))
  | Raise _ => beam_area (self w) = 0 \/ phi (self w) = 0
  end.
Proof.
  intros Hin Hover. cbv zeta.
  pose proof (step_trip a w) as H. cbv zeta in H.
  pose proof (overridden_frame a (self w)) as Ho. cbv zeta in Ho.
  pose proof (overridden_beam_current a (self w)) as Hbc.
  unfold trip_result in H.
  replace (in_trip (overridden a (self w))) with true in H
    by (symmetry; intuition congruence).
  destruct (Rgt_dec _ _) as [Hgt|Hgt];
    [|exfalso; apply Hgt;
      replace (time_elapsed (overridden a (self w)))
        with (time_elapsed (self w)) by (symmetry; apply Ho);
      replace (trip_start (overridden a (self w)))
        with (trip_start (self w)) by (symmetry; apply Ho);
      replace (trip_duration (overridden a (self w)))
        with (trip_duration (self w)) by (symmetry; apply Ho);
      exact Hover].
  cbn in H. destruct H as (H1 & _ & _ & H4 & _ & H6).
  split; [exact H1|]. split; [exact H4|].
  destruct (fst (step a w)) as [snap|e].
  - destruct H6 as (Hcb & Hit & _). split; [exact Hit|]. congruence.
  - destruct H6 as [[_ Hz]|Hz]; [left|right]; exact Hz.
Qed.

(** An engine tripped at 10 s for 30 s, stepped at 100 s. *)
Lemma trip_end_resumes_beam_witness :
  (in_trip engine_tripped = true /\
   time_elapsed engine_tripped - trip_start engine_tripped
   > trip_duration engine_tripped) /\
  exists (snap : StepData) (w' : World),
    step None (mkWorld engine_tripped rng_half) = (Return snap, w') /\
    in_trip (self w') = false /\ sd_in_trip snap = false /\
    sd_beam_current snap = 2e-9.
Proof.
  assert (H : in_trip engine_tripped = true /\
              time_elapsed engine_tripped - trip_start engine_tripped
              > trip_duration engine_tripped)
    by (split; [reflexivity|fields; lra]).
  split; [exact H|].
  pose proof (trip_end_resumes_beam (mkWorld engine_tripped rng_half)
                None (proj1 H) (proj2 H)) as L.
  revert L. unfold engine_tripped, rng_half. run_step.
  intros (L1 & L2 & L3 & L4).
  eexists. eexists. split; [reflexivity|].
  split; [exact L1|]. split; [exact L3|]. exact L4.
Defined.

(** C6: a [step] that starts outside a trip enters one exactly when the
    draw of [random.random()] is strictly below
    [trip_prob_per_step * time_step]; on entry [trip_start] is the current
    [time_elapsed], [trip_duration] is
    [min_trip_duration + (max_trip_duration - min_trip_duration) * u2] for
    the next draw [u2] (between the two bounds when they are ordered and
    [u2] is in [0, 1]) and the delivered current is 0; without entry the
    delivered current is [beam_current].  A [step] that starts tripped with
    [time_elapsed - trip_start <= trip_duration] delivers 0 and stays
    tripped, and so does every call of a sequence as long as that
    inequality holds at its start. *)
Theorem trip_entry_and_outage :
  (forall (w : World) (a : option (gmap string R)),
     in_trip (self w) = false ->
     let u := draws (rng w) (cursor (rng w)) in
     let u2 := draws (rng w) (S (cursor (rng w))) in
     let p_trip := trip_prob_per_step (self w) * time_step (self w) in
     let rw := step a w in
     (in_trip (self (snd rw)) = true <-> u < p_trip) /\
     (u < p_trip ->
      trip_start (self (snd rw)) = time_elapsed (self w) /\
      trip_duration (self (snd rw))
      = min_trip_duration (self w)
        + (max_trip_duration (self w) - min_trip_duration (self w)) * u2 /\
      (min_trip_duration (self w) <= max_trip_duration (self w) ->
       0 <= u2 <= 1 ->
       min_trip_duration (self w) <= trip_duration (self (snd rw))
       <= max_trip_duration (self w)) /\
      match fst rw with
      | Return snap => sd_beam_current snap = 0 /\ sd_in_trip snap = true
      | Raise _ => phi (self w) = 0
      end) /\
     (~ u < p_trip ->
      match fst rw with
      | Return snap =>
          sd_beam_current snap = beam_current (self (snd rw)) /\
          sd_in_trip snap = false
      | Raise _ => beam_area (self w) = 0 \/ phi (self w) = 0
      end)) /\
  (forall (w : World) (a : option (gmap string R)),
     in_trip (self w) = true ->
     time_elapsed (self w) - trip_start (self w) <= trip_duration (self w) ->
     let rw := step a w in
     in_trip (self (snd rw)) = true /\
     trip_start (self (snd rw)) = trip_start (self w) /\
     trip_duration (self (snd rw)) = trip_duration (self w) /\
     match fst rw with
     | Return snap =>
         sd_beam_current snap = 0 /\ sd_in_trip snap = true /\
         time_elapsed (self (snd rw))
         = time_elapsed (self w) + time_step (self w)
     | Raise _ => phi (self w) = 0
     end) /\
  (forall (w : World) (actions : list (option (gmap string R))),
     in_trip (self w) = true ->
     phi (self w) <> 0 ->
     (forall k : nat, (k < length actions)%nat ->
        time_elapsed (self w) + INR k * time_step (self w)
        - trip_start (self w)
        <= trip_duration (self w)) ->
     Forall (fun rw => exists snap : StepData,
               fst rw = Return snap /\ sd_beam_current snap = 0 /\
               sd_in_trip snap = true /\ in_trip (self (snd rw)) = true)
       (steps actions w)).
Proof.
  split; [|split].
  - intros w a Hin. cbv zeta.
    pose proof (step_from_normal a w Hin) as (Hiff & Hyes & Hno).
    split; [exact Hiff|]. split; [|exact Hno].
    intros Hu. destruct (Hyes Hu) as (Hs & Hd & Hr).
    split; [exact Hs|]. split; [exact Hd|]. split; [|exact Hr].
    intros Hlo Hu2. rewrite Hd. apply uniform_between; assumption.
  - intros w a. apply step_while_tripped.
  - intros w actions. apply steps_while_tripped.
Qed.

(** A draw of 0 trips the default engine; an engine tripped at 10 s for
    30 s and stepped three times from 15 s delivers nothing. *)
Lemma trip_entry_and_outage_witness :
  (in_trip engine_default = false /\
   draws rng_zero (cursor rng_zero)
   < trip_prob_per_step engine_default * time_step engine_default) /\
  (exists (snap : StepData) (w' : World),
     step None (mkWorld engine_default rng_zero) = (Return snap, w') /\
     in_trip (self w') = true /\ trip_start (self w') = 0 /\
     trip_duration (self w') = 20 + (300 - 20) * 0 /\
     sd_beam_current snap = 0) /\
  Forall (fun rw => exists snap : StepData,
            fst rw = Return snap /\ sd_beam_current snap = 0 /\
            sd_in_trip snap = true /\ in_trip (self (snd rw)) = true)
    (steps [None; None; None] (mkWorld engine_waiting rng_half)).
Proof.
  assert (H : in_trip engine_default = false /\
              draws rng_zero (cursor rng_zero)
              < trip_prob_per_step engine_default * time_step engine_default)
    by (split; [reflexivity|fields; lra]).
  split; [exact H|].
  destruct trip_entry_and_outage as (Hentry & _ & Hseq).
  split.
  - pose proof (Hentry (mkWorld engine_default rng_zero) None (proj1 H))
      as (Hiff & Hyes & _).
    destruct (Hyes (proj2 H)) as (Hs & Hd & _ & Hr).
    revert Hiff Hs Hd Hr. unfold engine_default, rng_zero. run_step.
    intros Hiff Hs Hd Hr.
    eexists. eexists. split; [reflexivity|].
    split; [reflexivity|]. split; [exact Hs|]. split; [exact Hd|].
    apply Hr.
  - apply Hseq.
    + reflexivity.
    + fields. lra.
    + intros k Hk. fields.
      destruct k as [|[|[|k]]]; cbn in Hk |- *; try lia; lra.
Defined.

(** C7: from one engine state and one state of the random generator, two
    [step] calls that differ only in the microwave frequency they set reach
    the assignment [self.polarization = base_pol + microwave_effect] with
    the same dose and trip state and the same [base_pol], the value of the
    decay law at that dose; the value each assigns is
    [base_pol + - (f - 140.1) * 0.0001] for its frequency [f], so the two
    differ by exactly [-0.0001 * (f1 - f2)]; the polarization [step] then
    returns is the clamp of the value assigned.  The calls return whenever
    [beam_area] and [phi] are not zero. *)
Theorem microwave_linearity (w : World) (d : gmap string R) (f1 f2 : R) :
  let action := fun f : R => Some (<["microwave_frequency" := f]> d) in
  match step_to_combine (action f1) w, step_to_combine (action f2) w with
  | (Return raw1, w1), (Return raw2, w2) =>
      raw1 - raw2 = -0.0001 * (f1 - f2) /\
      polarization (self w1) = raw1 /\ polarization (self w2) = raw2 /\
      accumulated_dose (self w1) = accumulated_dose (self w2) /\
      in_trip (self w1) = in_trip (self w2) /\
      microwave_frequency (self w1) = f1 /\
      microwave_frequency (self w2) = f2 /\
      exists base_pol : R,
        single_exponential_polarization
          (accumulated_dose (self w1)) (pmax (self w1)) (phi (self w1))
        = Return base_pol /\
        single_exponential_polarization
          (accumulated_dose (self w2)) (pmax (self w2)) (phi (self w2))
        = Return base_pol /\
        raw1 = base_pol + - (f1 - 140.1) * 0.0001 /\
        raw2 = base_pol + - (f2 - 140.1) * 0.0001
  | (Raise _, _), (Raise _, _) => True
  | _, _ => False
  end /\
  (forall f : R,
     match step_to_combine (action f) w, step (action f) w with
     | (Return raw, _), (Return snap, w') =>
         sd_polarization snap = clamp raw /\
         polarization (self w') = clamp raw
     | (Raise _, _), (Raise _, _) => True
     | _, _ => False
     end) /\
  (beam_area (self w) <> 0 -> phi (self w) <> 0 ->
   forall f : R,
     exists (raw : R) (w1 : World) (snap : StepData) (w' : World),
       step_to_combine (action f) w = (Return raw, w1) /\
       step (action f) w = (Return snap, w')).
Proof.
  cbv beta zeta. split; [|split].
  2: { intros f.
       pose proof (step_clamps_combined
                     (Some (<["microwave_frequency" := f]> d)) w) as H.
       destruct (step_to_combine _ w) as [[raw|e1] w1];
         destruct (step _ w) as [[snap|e2] w']; try contradiction.
       - split; apply H.
       - exact I. }
  2: { intros Harea Hphi f.
       pose proof (step_clamps_combined
                     (Some (<["microwave_frequency" := f]> d)) w) as H.
       pose proof (step_raise (Some (<["microwave_frequency" := f]> d)) w)
         as Hr.
       destruct (step_to_combine _ w) as [[raw|e1] w1];
         destruct (step _ w) as [[snap|e2] w']; try contradiction.
       - exists raw, w1, snap, w'. split; reflexivity.
       - destruct (Hr e2 eq_refl); contradiction. }
  destruct w as [s g].
  rewrite !step_to_combine_spec, !overridden_frequency. cbv zeta.
  rewrite !trip_result_frequency. cbn [fst snd self rng].
  rewrite !combined_frequency.
  destruct (trip_result _ g) as [cb [s2 g2]]. cbn [fst snd self rng].
  destruct (dosed cb s2) as [s3|e]; [|exact I].
  destruct (single_exponential_polarization _ _ _) as [b|e] eqn:Hb;
    [|exact I].
  cbn. split; [pose proof (microwave_effect_difference f1 f2); lra|].
  repeat (split; [reflexivity|]).
  exists b. repeat split; exact Hb.
Qed.

(** The docstring's frequency 139.5 against the reference 140.1, on the
    default engine: both calls return and the values assigned are the base
    polarization and the base polarization plus [0.6 * 0.0001]. *)
Lemma microwave_linearity_witness :
  (beam_area engine_default <> 0 /\ phi engine_default <> 0) /\
  exists (raw1 raw2 base_pol : R) (w1 w2 : World),
    step_to_combine (Some (<["microwave_frequency" := 140.1]> ∅))
      (mkWorld engine_default rng_half) = (Return raw1, w1) /\
    step_to_combine (Some (<["microwave_frequency" := 139.5]> ∅))
      (mkWorld engine_default rng_half) = (Return raw2, w2) /\
    raw1 = base_pol + - (140.1 - 140.1) * 0.0001 /\
    raw2 = base_pol + - (139.5 - 140.1) * 0.0001 /\
    raw1 - raw2 = -0.0001 * (140.1 - 139.5).
Proof.
  assert (H : beam_area engine_default <> 0 /\ phi engine_default <> 0)
    by (cbn -[Z.pow_pos]; split; lra).
  split; [exact H|].
  destruct (microwave_linearity (mkWorld engine_default rng_half) ∅
              140.1 139.5) as (Hlin & _ & Hret).
  cbv beta in Hlin, Hret.
  destruct (Hret (proj1 H) (proj2 H) 140.1) as (raw1 & w1 & _ & _ & E1 & _).
  destruct (Hret (proj1 H) (proj2 H) 139.5) as (raw2 & w2 & _ & _ & E2 & _).
  rewrite E1, E2 in Hlin.
  destruct Hlin as (Hd & _ & _ & _ & _ & _ & _ & b & _ & _ & Hr1 & Hr2).
  exists raw1, raw2, b, w1, w2.
  repeat split; assumption.
Defined.

(** C8: whatever [pmax] and [phi] are passed, the constructed engine has
    [pmax = 0.95] and [phi = 25.6e15 * 1.13]. *)
Theorem pmax_phi_pinned (bc ts ba mf pm ph rate : R) (dur : R * R) :
  exists s : t,
    __init__ bc ts ba mf pm ph rate dur = Return s /\
    pmax s = 0.95 /\ phi s = 25.6e15 * 1.13.
Proof.
  eexists. split; [apply init_returns|]. cbn. split; reflexivity.
Qed.

(** C9: [reset] returns normally, sets the dose, the elapsed time, the trip
    start and the trip duration to 0, the polarization to [pmax] and
    [in_trip] to false, and leaves every configuration attribute (and the
    random generator) as it was. *)
Theorem reset_restores_state (w : World) :
  let w' := snd (reset w) in
  fst (reset w) = Return tt /\
  (accumulated_dose (self w') = 0 /\
   polarization (self w') = pmax (self w') /\
   time_elapsed (self w') = 0 /\
   in_trip (self w') = false /\
   trip_start (self w') = 0 /\
   trip_duration (self w') = 0) /\
  (beam_current (self w') = beam_current (self w) /\
   beam_area (self w') = beam_area (self w) /\
   time_step (self w') = time_step (self w) /\
   microwave_frequency (self w') = microwave_frequency (self w) /\
   pmax (self w') = pmax (self w) /\
   phi (self w') = phi (self w) /\
   trip_prob_per_step (self w') = trip_prob_per_step (self w) /\
   min_trip_duration (self w') = min_trip_duration (self w) /\
   max_trip_duration (self w') = max_trip_duration (self w)) /\
  rng w' = rng w.
Proof.
  destruct w as [s g]. rewrite reset_run. cbn.
  repeat split; reflexivity.
Qed.



(** ** Further properties *)

Lemma overridden_frequency_value (a : option (gmap string R)) (s : t) :
  microwave_frequency (overridden a s)
  = default (microwave_frequency s) (item a "microwave_frequency").
Proof.
  unfold overridden.
  destruct (item a "beam_current"), (item a "microwave_frequency");
    reflexivity.
Qed.

Lemma trip_result_delivered (s : t) (g : Rng) :
  let r := trip_result s g in
  fst r = (if in_trip (self (snd r)) then 0 else beam_current s) /\
  draws (rng (snd r)) = draws g /\
  cursor (rng (snd r))
  = (cursor g
     + (if in_trip s then 0 else if in_trip (self (snd r)) then 2 else 1))%nat.
Proof.
  unfold trip_result.
  destruct (in_trip s) eqn:Hin;
    [destruct (Rgt_dec _ _)|destruct (Rlt_dec _ _)]; cbn;
    rewrite ?Hin; repeat split; try reflexivity; lia.
Qed.

Lemma finished_frame (cb : R) (s : t) (g : Rng) :
  let rw := finished cb s g in
  beam_current (self (snd rw)) = beam_current s /\
  microwave_frequency (self (snd rw)) = microwave_frequency s /\
  in_trip (self (snd rw)) = in_trip s /\
  rng (snd rw) = g /\
  match fst rw with
  | Return snap =>
      sd_time snap = time_elapsed (self (snd rw)) /\
      sd_polarization snap = polarization (self (snd rw)) /\
      sd_accumulated_dose snap = accumulated_dose (self (snd rw)) /\
      sd_beam_current snap = cb /\
      sd_in_trip snap = in_trip (self (snd rw)) /\
      sd_microwave_frequency snap = microwave_frequency (self (snd rw)) /\
      time_elapsed (self (snd rw)) = time_elapsed s + time_step s
  | Raise e =>
      e = ZeroDivisionError /\
      polarization (self (snd rw)) = polarization s /\
      time_elapsed (self (snd rw)) = time_elapsed s /\
      ((cb > 0 /\ beam_area s = 0 /\
        accumulated_dose (self (snd rw)) = accumulated_dose s) \/
       phi s = 0)
  end.
Proof.
  unfold finished. cbv zeta.
  destruct (dosed cb s) as [s3|e] eqn:Hd.
  - pose proof (dosed_frame _ _ _ Hd) as Hf.
    destruct (single_exponential_polarization _ _ _) as [b|e] eqn:Hb; cbn.
    + repeat split; try reflexivity; intuition congruence.
    + repeat split; try (intuition congruence).
      * destruct e. reflexivity.
      * right. unfold single_exponential_polarization in Hb.
        destruct (Rle_dec _ _); [discriminate|].
        destruct (pydiv _ (phi s3)) eqn:Hq; [discriminate|].
        apply pydiv_raise in Hq. intuition congruence.
  - cbn. repeat split; try reflexivity.
    + destruct e. reflexivity.
    + left. unfold dosed in Hd.
      destruct (Rgt_dec cb 0) as [Hcb|Hcb]; [|discriminate].
      destruct (pydiv _ _) eqn:Hq; [discriminate|].
      apply pydiv_raise in Hq. pose proof ELECTRON_CHARGE_pos.
      repeat split; [exact Hcb|nra].
Qed.

Lemma step_facts (a : option (gmap string R)) (w : World) :
  let rw := step a w in
  let cb := if in_trip (self (snd rw)) then 0
            else beam_current (self (snd rw)) in
  beam_current (self (snd rw))
  = default (beam_current (self w)) (item a "beam_current") /\
  microwave_frequency (self (snd rw))
  = default (microwave_frequency (self w)) (item a "microwave_frequency") /\
  draws (rng (snd rw)) = draws (rng w) /\
  cursor (rng (snd rw))
  = (cursor (rng w)
     + (if in_trip (self w) then 0
        else if in_trip (self (snd rw)) then 2 else 1))%nat /\
  match fst rw with
  | Return snap =>
      sd_time snap = time_elapsed (self (snd rw)) /\
      sd_polarization snap = polarization (self (snd rw)) /\
      sd_accumulated_dose snap = accumulated_dose (self (snd rw)) /\
      sd_beam_current snap = cb /\
      sd_in_trip snap = in_trip (self (snd rw)) /\
      sd_microwave_frequency snap = microwave_frequency (self (snd rw)) /\
      time_elapsed (self (snd rw))
      = time_elapsed (self w) + time_step (self w)
  | Raise e =>
      e = ZeroDivisionError /\
      polarization (self (snd rw)) = polarization (self w) /\
      time_elapsed (self (snd rw)) = time_elapsed (self w) /\
      ((cb > 0 /\ beam_area (self w) = 0 /\
        accumulated_dose (self (snd rw)) = accumulated_dose (self w)) \/
       phi (self w) = 0)
  end.
Proof.
  destruct w as [s g]. rewrite step_spec. cbv zeta. cbn [self rng].
  pose proof (overridden_frame a s) as Ho. cbv zeta in Ho.
  pose proof (overridden_beam_current a s) as Hbc.
  pose proof (overridden_frequency_value a s) as Hmf.
  pose proof (trip_result_frame (overridden a s) g) as Ht. cbv zeta in Ht.
  pose proof (trip_result_delivered (overridden a s) g) as Hd.
  cbv zeta in Hd.
  destruct (trip_result (overridden a s) g) as [cb [s2 g2]].
  cbn [fst snd self rng] in *.
  pose proof (finished_frame cb s2 g2) as Hf. cbv zeta in Hf.
  destruct (finished cb s2 g2) as [r [s' g']]. cbn [fst snd self rng] in *.
  destruct Hf as (F1 & F2 & F3 & F4 & F5). subst g'.
  destruct Hd as (D1 & D2 & D3).
  replace (in_trip (overridden a s)) with (in_trip s) in D3
    by (symmetry; apply Ho).
  rewrite F3, F1.
  destruct Ho as (O1 & O2 & O3 & O4 & O5 & O6 & O7 & _).
  destruct Ht as (T1 & T2 & T3 & T4 & T5 & T6 & T7 & T8 & T9 & _).
  split; [congruence|]. split; [congruence|].
  split; [exact D2|]. split; [exact D3|].
  destruct r as [snap|e].
  - destruct F5 as (S1 & S2 & S3 & S4 & S5 & S6 & S7).
    repeat split; try assumption.
    + rewrite S4, D1, T1. reflexivity.
    + rewrite S5. exact F3.
    + rewrite S7. congruence.
  - destruct F5 as (-> & P1 & P2 & P3).
    split; [reflexivity|]. split; [congruence|]. split; [congruence|].
    destruct P3 as [(C1 & C2 & C3)|Hz].
    + left. rewrite D1 in C1. rewrite T1.
      repeat split; [exact C1|congruence|congruence].
    + right. congruence.
Qed.

Lemma step_return_area (a : option (gmap string R)) (w : World)
    (snap : StepData) :
  fst (step a w) = Return snap -> sd_beam_current snap > 0 ->
  beam_area (self w) <> 0.
Proof.
  destruct w as [s g]. rewrite step_spec. cbv zeta. cbn [self].
  pose proof (overridden_frame a s) as Ho. cbv zeta in Ho.
  pose proof (trip_result_frame (overridden a s) g) as Ht. cbv zeta in Ht.
  destruct (trip_result (overridden a s) g) as [cb [s2 g2]].
  cbn [fst snd self rng] in *.
  unfold finished, dosed.
  destruct (Rgt_dec cb 0) as [Hcb|Hcb].
  - destruct (pydiv _ _) as [q|] eqn:Hq; cbn; [|discriminate].
    apply pydiv_inv in Hq as [Hne _].
    intros _ _ Hz. apply Hne.
    replace (beam_area s2) with (beam_area s) by (symmetry; intuition congruence).
    rewrite Hz. ring.
  - destruct (single_exponential_polarization _ _ _); cbn; [|discriminate].
    intros H; injection H as <-. cbn. intros; contradiction.
Qed.

(** X1: an engine with [phi <> 0] (every constructed one) raises from
    [step] exactly when [beam_area] is 0 and the call is delivering a
    positive current (the object is then out of a trip with a positive
    [beam_current]); the exception is [ZeroDivisionError] and it leaves the
    dose, the polarization and the elapsed time as they were. *)
Theorem step_raises_exactly_on_zero_area
    (a : option (gmap string R)) (w : World) :
  phi (self w) <> 0 ->
  let rw := step a w in
  ((exists e : exn, fst rw = Raise e) <->
   beam_area (self w) = 0 /\ in_trip (self (snd rw)) = false /\
   beam_current (self (snd rw)) > 0) /\
  (forall e : exn, fst rw = Raise e ->
     e = ZeroDivisionError /\
     accumulated_dose (self (snd rw)) = accumulated_dose (self w) /\
     polarization (self (snd rw)) = polarization (self w) /\
     time_elapsed (self (snd rw)) = time_elapsed (self w)).
Proof.
  intros Hphi. cbv zeta.
  pose proof (step_facts a w) as H. cbv zeta in H.
  destruct H as (_ & _ & _ & _ & H).
  pose proof (step_return_area a w) as Ha.
  destruct (fst (step a w)) as [snap|e] eqn:Hr.
  - split.
    + split.
      * intros [e He]. discriminate.
      * intros (Hz & Hin & Hbc). exfalso.
        destruct H as (_ & _ & _ & Hcb & _).
        rewrite Hin in Hcb. apply (Ha snap eq_refl); [lra|exact Hz].
    + intros e He. discriminate.
  - destruct H as (-> & Hp & Ht & [(Hcb & Hz & Hd)|Hz]); [|contradiction].
    split.
    + split.
      * intros _. split; [exact Hz|].
        destruct (in_trip (self (snd (step a w)))); [lra|].
        split; [reflexivity|exact Hcb].
      * intros _. exists ZeroDivisionError. reflexivity.
    + intros e He. injection He as <-. repeat split; assumption.
Qed.

(** X2: the dict [step] returns shows the object as the call left it
    (time, polarization, dose, trip flag, frequency), and its beam current
    is 0 when the object is in a trip and [beam_current] otherwise. *)
Theorem snapshot_agrees_with_object
    (a : option (gmap string R)) (w : World) :
  match step a w with
  | (Return snap, w') =>
      sd_time snap = time_elapsed (self w') /\
      sd_polarization snap = polarization (self w') /\
      sd_accumulated_dose snap = accumulated_dose (self w') /\
      sd_in_trip snap = in_trip (self w') /\
      sd_microwave_frequency snap = microwave_frequency (self w') /\
      sd_beam_current snap
      = (if in_trip (self w') then 0 else beam_current (self w'))
  | (Raise _, _) => True
  end.
Proof.
  pose proof (step_facts a w) as H. cbv zeta in H.
  destruct H as (_ & _ & _ & _ & H).
  destruct (step a w) as [[snap|e] w']; cbn in *; [|exact I].
  intuition.
Qed.

(** X3: [step] reads the random stream without changing it and advances
    the cursor by 0 when it starts in a trip, by 2 when it enters one (the
    trip decision and the duration) and by 1 otherwise. *)
Theorem draws_consumed (a : option (gmap string R)) (w : World) :
  let w' := snd (step a w) in
  draws (rng w') = draws (rng w) /\
  cursor (rng w')
  = (cursor (rng w)
     + (if in_trip (self w) then 0
        else if in_trip (self w') then 2 else 1))%nat.
Proof.
  pose proof (step_facts a w) as H. cbv zeta in H. cbv zeta.
  split; apply H.
Qed.

(** X4: [step] looks at nothing of its action but the keys
    ["beam_current"] and ["microwave_frequency"]: two actions that agree on
    them give the same call, so an empty dict or a dict of other keys is as
    good as [None]. *)
Theorem step_reads_two_keys_only
    (a a' : option (gmap string R)) (w : World) :
  item a "beam_current" = item a' "beam_current" ->
  item a "microwave_frequency" = item a' "microwave_frequency" ->
  step a w = step a' w.
Proof.
  intros H1 H2. destruct w as [s g]. rewrite !step_spec.
  unfold overridden. rewrite H1, H2. reflexivity.
Qed.

Lemma step_reads_two_keys_only_witness :
  (item (Some (∅ : gmap string R)) "beam_current" = item None "beam_current" /\
   item (Some (∅ : gmap string R)) "microwave_frequency"
   = item None "microwave_frequency") /\
  (item (Some ({[ "beam_area" := 5 ]} : gmap string R)) "beam_current"
   = item None "beam_current" /\
   item (Some ({[ "beam_area" := 5 ]} : gmap string R)) "microwave_frequency"
   = item None "microwave_frequency") /\
  step (Some ∅) (mkWorld engine_default rng_half)
  = step None (mkWorld engine_default rng_half) /\
  step (Some {[ "beam_area" := 5 ]}) (mkWorld engine_default rng_half)
  = step None (mkWorld engine_default rng_half).
Proof.
  assert (H1 : item (Some (∅ : gmap string R)) "beam_current"
               = item None "beam_current" /\
               item (Some (∅ : gmap string R)) "microwave_frequency"
               = item None "microwave_frequency")
    by (split; reflexivity).
  assert (H2 : item (Some ({[ "beam_area" := 5 ]} : gmap string R))
                 "beam_current" = item None "beam_current" /\
               item (Some ({[ "beam_area" := 5 ]} : gmap string R))
                 "microwave_frequency" = item None "microwave_frequency")
    by (split; reflexivity).
  split; [exact H1|]. split; [exact H2|]. split.
  - apply (step_reads_two_keys_only _ _ _ (proj1 H1) (proj2 H1)).
  - apply (step_reads_two_keys_only _ _ _ (proj1 H2) (proj2 H2)).
Defined.

(** X5: an override is a lasting assignment: after [step] the object
    holds the overriding beam current and frequency (also when the call
    raised), and a later [step] whose action does not name them keeps and
    reports them. *)
Theorem override_is_permanent
    (a a2 : option (gmap string R)) (w : World) :
  let w1 := snd (step a w) in
  let w2 := snd (step a2 w1) in
  beam_current (self w1)
  = default (beam_current (self w)) (item a "beam_current") /\
  microwave_frequency (self w1)
  = default (microwave_frequency (self w)) (item a "microwave_frequency") /\
  (item a2 "beam_current" = None ->
   beam_current (self w2) = beam_current (self w1)) /\
  (item a2 "microwave_frequency" = None ->
   microwave_frequency (self w2) = microwave_frequency (self w1) /\
   match fst (step a2 w1) with
   | Return snap =>
       sd_microwave_frequency snap = microwave_frequency (self w1)
   | Raise _ => True
   end).
Proof.
  cbv zeta.
  pose proof (step_facts a w) as H1. cbv zeta in H1.
  pose proof (step_facts a2 (snd (step a w))) as H2. cbv zeta in H2.
  destruct H1 as (B1 & F1 & _). destruct H2 as (B2 & F2 & _ & _ & S2).
  split; [exact B1|]. split; [exact F1|]. split.
  - intros Hn. rewrite Hn in B2. exact B2.
  - intros Hn. rewrite Hn in F2. cbn in F2. split; [exact F2|].
    destruct (fst (step a2 (snd (step a w)))) as [snap|e]; [|exact I].
    destruct S2 as (_ & _ & _ & _ & _ & S6 & _). congruence.
Qed.

Lemma override_is_permanent_witness :
  (item None "beam_current" = None /\
   item None "microwave_frequency" = None) /\
  let w1 := snd (step docstring_action (mkWorld engine_default rng_half)) in
  let w2 := snd (step None w1) in
  beam_current (self w2) = 2e-9 /\ microwave_frequency (self w2) = 139.5.
Proof.
  assert (H : item None "beam_current" = None /\
              item None "microwave_frequency" = None)
    by (split; reflexivity).
  split; [exact H|]. cbv zeta.
  destruct (override_is_permanent docstring_action None
              (mkWorld engine_default rng_half))
    as (B1 & F1 & B2 & F2).
  split.
  - rewrite (B2 (proj1 H)), B1. reflexivity.
  - rewrite (proj1 (F2 (proj2 H))), F1. reflexivity.
Defined.

Lemma step_returns (a : option (gmap string R)) (w : World) :
  beam_area (self w) <> 0 -> phi (self w) <> 0 ->
  exists snap : StepData, fst (step a w) = Return snap.
Proof.
  intros Ha Hp. destruct (fst (step a w)) as [snap|e] eqn:Hr.
  - exists snap. reflexivity.
  - apply step_raise in Hr. destruct Hr; contradiction.
Qed.

Lemma steps_return (actions : list (option (gmap string R))) :
  forall w : World,
  beam_area (self w) <> 0 -> phi (self w) <> 0 ->
  Forall (fun rw => exists snap : StepData, fst rw = Return snap)
    (steps actions w) /\
  time_elapsed (self (after actions w))
  = time_elapsed (self w) + INR (length actions) * time_step (self w).
Proof.
  induction actions as [|a rest IH]; intros w Ha Hp.
  - cbn. split; [constructor|lra].
  - pose proof (step_frame a w) as (Hts & Hba & _ & Hph & _).
    cbv zeta in Hts, Hba, Hph.
    destruct (step_returns a w Ha Hp) as [snap Hr].
    pose proof (step_facts a w) as Hf. cbv zeta in Hf.
    destruct Hf as (_ & _ & _ & _ & Hf). rewrite Hr in Hf.
    destruct Hf as (_ & _ & _ & _ & _ & _ & Htime).
    destruct (IH (snd (step a w))) as [IH1 IH2];
      [rewrite Hba; exact Ha|rewrite Hph; exact Hp|].
    split.
    + cbn [steps]. constructor; [exists snap; exact Hr|exact IH1].
    + change (after (a :: rest) w) with (after rest (snd (step a w))).
      rewrite IH2, Htime, Hts. cbn [length]. rewrite S_INR. lra.
Qed.

(** X6: a [step] that returns advances [time_elapsed] by exactly
    [time_step] and reports the new time; one that raises leaves the time
    alone.  With [beam_area <> 0] and [phi <> 0] every call of a sequence
    returns and [n] calls advance the time by [n * time_step]. *)
Theorem time_advances_by_time_step :
  (forall (a : option (gmap string R)) (w : World),
     match step a w with
     | (Return snap, w') =>
         time_elapsed (self w') = time_elapsed (self w) + time_step (self w) /\
         sd_time snap = time_elapsed (self w')
     | (Raise _, w') => time_elapsed (self w') = time_elapsed (self w)
     end) /\
  (forall (actions : list (option (gmap string R))) (w : World),
     beam_area (self w) <> 0 -> phi (self w) <> 0 ->
     Forall (fun rw => exists snap : StepData, fst rw = Return snap)
       (steps actions w) /\
     time_elapsed (self (after actions w))
     = time_elapsed (self w) + INR (length actions) * time_step (self w)).
Proof.
  split.
  - intros a w. pose proof (step_facts a w) as H. cbv zeta in H.
    destruct H as (_ & _ & _ & _ & H).
    destruct (step a w) as [[snap|e] w']; cbn in *.
    + split; [apply H|]. apply H.
    + apply H.
  - intros actions w. apply steps_return.
Qed.

Lemma time_advances_by_time_step_witness :
  (beam_area engine_default <> 0 /\ phi engine_default <> 0) /\
  time_elapsed
    (self (after [None; None; None] (mkWorld engine_default rng_half)))
  = 0 + 3 * 1.
Proof.
  assert (H : beam_area engine_default <> 0 /\ phi engine_default <> 0)
    by (fields; split; lra).
  split; [exact H|].
  destruct (proj2 time_advances_by_time_step [None; None; None]
              (mkWorld engine_default rng_half) (proj1 H) (proj2 H))
    as [_ Ht].
  rewrite Ht. fields. lra.
Defined.

Lemma step_same_configuration (a : option (gmap string R)) (w : World) :
  no_override a -> same_configuration (self w) (self (snd (step a w))).
Proof.
  intros [Hb Hf].
  pose proof (step_frame a w) as (F1 & F2 & F3 & F4 & F5 & F6 & F7).
  pose proof (step_facts a w) as (B & M & _). cbv zeta in *.
  rewrite Hb in B. rewrite Hf in M. cbn in B, M.
  unfold same_configuration. repeat split; assumption.
Qed.

Lemma after_same_configuration (actions : list (option (gmap string R))) :
  forall w : World,
  Forall no_override actions ->
  same_configuration (self w) (self (after actions w)).
Proof.
  induction actions as [|a rest IH]; intros w Hall.
  - cbn. unfold same_configuration. repeat split; reflexivity.
  - inversion Hall as [|? ? Ha Hrest]; subst.
    pose proof (step_same_configuration a w Ha) as H1.
    pose proof (IH (snd (step a w)) Hrest) as H2.
    change (after (a :: rest) w) with (after rest (snd (step a w))).
    unfold same_configuration in *.
    repeat split; intuition congruence.
Qed.

Lemma reset_same_configuration (s s' : t) (g g' : Rng) :
  same_configuration s s' ->
  self (snd (reset (mkWorld s' g'))) = self (snd (reset (mkWorld s g))).
Proof.
  intros (H1 & H2 & H3 & H4 & H5 & H6 & H7 & H8 & H9).
  rewrite !reset_run. cbn.
  rewrite H1, H2, H3, H4, H5, H6, H7, H8, H9. reflexivity.
Qed.

(** X7: [reset] undoes any number of [step] calls without overrides: the
    object after steps and a [reset] is the object after a [reset] alone;
    for an engine built with [pmax = 0.95] it is the engine as built. *)
Theorem reset_undoes_steps :
  (forall (w : World) (actions : list (option (gmap string R))),
     Forall no_override actions ->
     self (snd (reset (after actions w))) = self (snd (reset w))) /\
  (forall (bc ts ba mf ph rate : R) (dur : R * R) (e : t) (g : Rng)
          (actions : list (option (gmap string R))),
     __init__ bc ts ba mf 0.95 ph rate dur = Return e ->
     Forall no_override actions ->
     self (snd (reset (after actions (mkWorld e g)))) = e).
Proof.
  assert (Hgen : forall (w : World) (actions : list (option (gmap string R))),
             Forall no_override actions ->
             self (snd (reset (after actions w))) = self (snd (reset w))).
  { intros w actions Hall.
    pose proof (after_same_configuration actions w Hall) as Hc.
    destruct w as [s g]. destruct (after actions (mkWorld s g)) as [s' g'].
    apply reset_same_configuration. exact Hc. }
  split; [exact Hgen|].
  intros bc ts ba mf ph rate dur e g actions Hinit Hall.
  rewrite Hgen by exact Hall.
  rewrite init_returns in Hinit. injection Hinit as <-.
  rewrite reset_run. reflexivity.
Qed.

Lemma reset_undoes_steps_witness :
  (__init__ 2e-9 1 1 140.1 0.95 default_phi 12 (20, 300)
   = Return engine_default /\
   Forall no_override [None; Some ∅; None]) /\
  self (snd (reset (after [None; Some ∅; None]
                      (mkWorld engine_default rng_half))))
  = engine_default.
Proof.
  assert (H : __init__ 2e-9 1 1 140.1 0.95 default_phi 12 (20, 300)
              = Return engine_default /\
              Forall no_override [None; Some ∅; None]).
  { split; [apply init_returns|].
    repeat constructor. }
  split; [exact H|].
  apply (proj2 reset_undoes_steps _ _ _ _ _ _ _ _ _ _ (proj1 H) (proj2 H)).
Defined.

Lemma clamp_monotone (x y : R) : x <= y -> clamp x <= clamp y.
Proof.
  unfold clamp, py_max, py_min. intros H.
  destruct (Rlt_dec x 1); destruct (Rlt_dec y 1);
    repeat destruct (Rgt_dec _ 0); lra.
Qed.

Lemma base_polarization_antitone (d1 d2 pm ph : R) :
  0 <= pm -> 0 < ph -> d1 <= d2 ->
  base_polarization d2 pm ph <= base_polarization d1 pm ph.
Proof.
  intros Hpm Hph Hd. unfold base_polarization.
  assert (Hexp : forall d, ~ d <= 1e-12 -> 0 < exp (- d / ph) < 1).
  { intros d Hn. split; [apply exp_pos|].
    rewrite <- exp_0. apply exp_increasing.
    apply Rmult_neg_pos; [lra|]. apply Rinv_0_lt_compat, Hph. }
  destruct (Rle_dec d1 1e-12) as [H1|H1];
    destruct (Rle_dec d2 1e-12) as [H2|H2]; try lra.
  - pose proof (Hexp d2 H2). nra.
  - assert (exp (- d2 / ph) <= exp (- d1 / ph)).
    { destruct (Req_dec d1 d2) as [->|Hne]; [lra|].
      left. apply exp_increasing.
      unfold Rdiv. apply Rmult_lt_compat_r;
        [apply Rinv_0_lt_compat, Hph|lra]. }
    nra.
Qed.

(** X8: with positive [time_step], [beam_area] and [phi] and [pmax >= 0],
    two [step] calls in a row both return and, when the second does not set
    the frequency, the polarization after the second is at most the one
    after the first: radiation damage is never recovered. *)
Theorem polarization_never_recovers
    (a1 a2 : option (gmap string R)) (w : World) :
  0 < time_step (self w) -> 0 < beam_area (self w) ->
  0 <= pmax (self w) -> 0 < phi (self w) ->
  item a2 "microwave_frequency" = None ->
  let w1 := snd (step a1 w) in
  let w2 := snd (step a2 w1) in
  (exists snap1 snap2 : StepData,
     fst (step a1 w) = Return snap1 /\ fst (step a2 w1) = Return snap2 /\
     sd_polarization snap2 <= sd_polarization snap1) /\
  polarization (self w2) <= polarization (self w1).
Proof.
  intros Hdt Harea Hpm Hphi Hnone. cbv zeta.
  pose proof (step_frame a1 w) as (Fts & Fba & Fpm & Fph & _).
  cbv zeta in Fts, Fba, Fpm, Fph.
  set (w1 := snd (step a1 w)) in *.
  pose proof (step_frame a2 w1) as (Gts & Gba & Gpm & Gph & _).
  cbv zeta in Gts, Gba, Gpm, Gph.
  destruct (step_returns a1 w) as [snap1 Hr1]; [lra|lra|].
  destruct (step_returns a2 w1) as [snap2 Hr2];
    [rewrite Fba; lra|rewrite Fph; lra|].
  pose proof (step_polarization_value a1 w) as V1.
  pose proof (step_polarization_value a2 w1) as V2.
  pose proof (step_facts a2 w1) as (_ & M2 & _). cbv zeta in M2.
  rewrite Hnone in M2. cbn in M2.
  assert (Hdose : accumulated_dose (self w1)
                  <= accumulated_dose (self (snd (step a2 w1))))
    by (apply step_dose_monotone; [rewrite Fts|rewrite Fba]; assumption).
  fold w1 in V1.
  destruct (step a1 w) as [r1 w1'] eqn:E1. cbn in Hr1. subst r1.
  cbn in w1. subst w1.
  destruct (step a2 w1') as [r2 w2'] eqn:E2. cbn in Hr2. subst r2.
  cbn [fst snd] in *.
  destruct V1 as (S1 & _ & P1). destruct V2 as (S2 & _ & P2).
  assert (Hle : polarization (self w2') <= polarization (self w1')).
  { rewrite P1, P2, M2, Gpm, Gph. apply clamp_monotone.
    apply Rplus_le_compat_r. apply base_polarization_antitone.
    - rewrite Fpm. exact Hpm.
    - rewrite Fph. exact Hphi.
    - exact Hdose. }
  split; [|exact Hle].
  exists snap1, snap2. repeat split. rewrite S1, S2. exact Hle.
Qed.

Lemma polarization_never_recovers_witness :
  (0 < time_step engine_default /\ 0 < beam_area engine_default /\
   0 <= pmax engine_default /\ 0 < phi engine_default /\
   item None "microwave_frequency" = None) /\
  polarization
    (self (snd (step None
                  (snd (step None (mkWorld engine_default rng_half))))))
  <= polarization (self (snd (step None (mkWorld engine_default rng_half)))).
Proof.
  assert (H : 0 < time_step engine_default /\ 0 < beam_area engine_default /\
              0 <= pmax engine_default /\ 0 < phi engine_default /\
              item None "microwave_frequency" = None)
    by (fields; repeat split; lra).
  split; [exact H|].
  destruct H as (H1 & H2 & H3 & H4 & H5).
  apply (polarization_never_recovers None None
           (mkWorld engine_default rng_half) H1 H2 H3 H4 H5).
Defined.

Lemma finished_frequency (cb f : R) (s : t) (g : Rng) :
  finished cb (set_microwave_frequency f s) g
  = match dosed cb s with
    | Raise e => (Raise e, mkWorld (set_microwave_frequency f s) g)
    | Return s3 =>
        match single_exponential_polarization
                (accumulated_dose s3) (pmax s3) (phi s3) with
        | Raise e => (Raise e, mkWorld (set_microwave_frequency f s3) g)
        | Return base_pol =>
            let p := clamp (base_pol + microwave_effect f) in
            let t' := time_elapsed s3 + time_step s3 in
            (Return (mkStepData t' p (accumulated_dose s3) cb (in_trip s3) f),
             mkWorld (set_time_elapsed t'
                        (set_polarization p (set_microwave_frequency f s3)))
                     g)
        end
    end.
Proof.
  unfold finished, dosed. cbn.
  destruct (Rgt_dec cb 0); cbn.
  - destruct (pydiv _ _); cbn; [|reflexivity].
    destruct (single_exponential_polarization _ _ _); reflexivity.
  - destruct (single_exponential_polarization _ _ _); reflexivity.
Qed.

(** X9: from one state, a [step] at a higher microwave frequency leaves
    and returns a polarization that is at most the one of a [step] at a
    lower frequency; dose, delivered current and trip flag are the same. *)
Theorem polarization_antitone_in_frequency
    (w : World) (d : gmap string R) (f1 f2 : R) :
  f1 <= f2 ->
  let action := fun f : R => Some (<["microwave_frequency" := f]> d) in
  polarization (self (snd (step (action f2) w)))
  <= polarization (self (snd (step (action f1) w))) /\
  match fst (step (action f1) w), fst (step (action f2) w) with
  | Return snap1, Return snap2 =>
      sd_polarization snap2 <= sd_polarization snap1 /\
      sd_accumulated_dose snap2 = sd_accumulated_dose snap1 /\
      sd_beam_current snap2 = sd_beam_current snap1 /\
      sd_in_trip snap2 = sd_in_trip snap1
  | Raise _, Raise _ => True
  | _, _ => False
  end.
Proof.
  intros Hf. cbv beta zeta. destruct w as [s g].
  rewrite !step_spec, !overridden_frequency. cbv zeta.
  rewrite !trip_result_frequency. cbn [fst snd self rng].
  rewrite !finished_frequency.
  destruct (trip_result _ g) as [cb [s2 g2]]. cbn [fst snd self rng].
  destruct (dosed cb s2) as [s3|e]; [|cbn; split; [lra|exact I]].
  destruct (single_exponential_polarization _ _ _) as [b|e];
    [|cbn; split; [lra|exact I]].
  cbn.
  assert (Hc : clamp (b + microwave_effect f2)
               <= clamp (b + microwave_effect f1)).
  { apply clamp_monotone. unfold microwave_effect. lra. }
  repeat split; try reflexivity; exact Hc.
Qed.

Lemma polarization_antitone_in_frequency_witness :
  140.1 <= 140.2 /\
  polarization
    (self (snd (step (Some (<["microwave_frequency" := 140.2]> ∅))
                  (mkWorld engine_default rng_half))))
  <= polarization
       (self (snd (step (Some (<["microwave_frequency" := 140.1]> ∅))
                     (mkWorld engine_default rng_half)))).
Proof.
  assert (H : 140.1 <= 140.2) by lra.
  split; [exact H|].
  apply (polarization_antitone_in_frequency
           (mkWorld engine_default rng_half) ∅ 140.1 140.2 H).
Defined.

(** X10: with [pmax >= 0] and [phi > 0], a [step] at a microwave frequency
    of at least 140.1 returns a polarization of at most [pmax]; such an
    engine fails to return only when [beam_area = 0]. *)
Theorem polarization_at_most_pmax (a : option (gmap string R)) (w : World) :
  0 <= pmax (self w) -> 0 < phi (self w) ->
  match step a w with
  | (Return snap, w') =>
      140.1 <= microwave_frequency (self w') ->
      sd_polarization snap <= pmax (self w)
  | (Raise _, _) => beam_area (self w) = 0
  end.
Proof.
  intros Hpm Hphi.
  pose proof (step_polarization_value a w) as V.
  pose proof (step_frame a w) as (_ & _ & Fpm & Fph & _).
  pose proof (step_raise a w) as Hr.
  destruct (step a w) as [[snap|e] w']; cbn in *.
  - intros Hf. destruct V as (S & _ & P). rewrite S, P.
    assert (Hb : base_polarization (accumulated_dose (self w'))
                   (pmax (self w')) (phi (self w')) <= pmax (self w')).
    { rewrite <- (Rmult_1_r (pmax (self w'))) at 2.
      unfold base_polarization. destruct (Rle_dec _ _); [lra|].
      assert (exp (- accumulated_dose (self w') / phi (self w')) < 1).
      { rewrite <- exp_0. apply exp_increasing.
        apply Rmult_neg_pos; [lra|]. apply Rinv_0_lt_compat. lra. }
      rewrite Fpm. nra. }
    assert (Hm : microwave_effect (microwave_frequency (self w')) <= 0)
      by (unfold microwave_effect; lra).
    unfold clamp, py_max, py_min.
    destruct (Rlt_dec _ 1); destruct (Rgt_dec _ 0); lra.
  - destruct (Hr e eq_refl) as [Hz|Hz]; [exact Hz|lra].
Qed.

Lemma polarization_at_most_pmax_witness :
  (0 <= pmax engine_default /\ 0 < phi engine_default) /\
  exists (snap : StepData) (w' : World),
    step None (mkWorld engine_default rng_half) = (Return snap, w') /\
    140.1 <= microwave_frequency (self w') /\
    sd_polarization snap <= 0.95.
Proof.
  assert (H : 0 <= pmax engine_default /\ 0 < phi engine_default)
    by (fields; lra).
  split; [exact H|].
  pose proof (polarization_at_most_pmax None
                (mkWorld engine_default rng_half) (proj1 H) (proj2 H)) as L.
  revert L. unfold engine_default, rng_half. run_step.
  intros L. eexists. eexists. split; [reflexivity|]. fields.
  split; [lra|]. apply L. lra.
Defined.

(** X12: for [pmax >= 0] and [phi > 0] the decay law returns for every
    dose, negative ones included, a value between 0 and [pmax] that does
    not grow with the dose. *)
Theorem decay_law_bounded_and_monotone (pm ph d1 d2 : R) :
  0 <= pm -> 0 < ph -> d1 <= d2 ->
  exists b1 b2 : R,
    single_exponential_polarization d1 pm ph = Return b1 /\
    single_exponential_polarization d2 pm ph = Return b2 /\
    0 <= b2 /\ b2 <= b1 /\ b1 <= pm.
Proof.
  intros Hpm Hph Hd.
  exists (base_polarization d1 pm ph), (base_polarization d2 pm ph).
  split; [apply single_exponential_polarization_value; left; lra|].
  split; [apply single_exponential_polarization_value; left; lra|].
  assert (Hexp : forall d, ~ d <= 1e-12 -> 0 < exp (- d / ph) < 1).
  { intros d Hn. split; [apply exp_pos|].
    rewrite <- exp_0. apply exp_increasing.
    apply Rmult_neg_pos; [lra|]. apply Rinv_0_lt_compat, Hph. }
  split; [|split; [apply base_polarization_antitone; assumption|]].
  - unfold base_polarization. destruct (Rle_dec d2 _) as [H|H]; [lra|].
    pose proof (Hexp d2 H). nra.
  - unfold base_polarization. destruct (Rle_dec d1 _) as [H|H]; [lra|].
    pose proof (Hexp d1 H). nra.
Qed.

Lemma decay_law_bounded_and_monotone_witness :
  (0 <= 0.95 /\ 0 < 25.6e15 * 1.13 /\ -5 <= 1e16) /\
  exists b1 b2 : R,
    single_exponential_polarization (-5) 0.95 (25.6e15 * 1.13) = Return b1 /\
    single_exponential_polarization 1e16 0.95 (25.6e15 * 1.13) = Return b2 /\
    0 <= b2 /\ b2 <= b1 /\ b1 <= 0.95.
Proof.
  assert (H : 0 <= 0.95 /\ 0 < 25.6e15 * 1.13 /\ -5 <= 1e16) by lra.
  split; [exact H|].
  destruct H as (H1 & H2 & H3).
  apply (decay_law_bounded_and_monotone _ _ _ _ H1 H2 H3).
Defined.

Ltac run_St :=
  unfold mbind, mret, St_bind, St_ret, st_get, st_modify, st_lift;
  cbn -[step Z.pow_pos].

Lemma app_loop_body_run (ss : App.Session) :
  App.loop_body ss
  = match step None (App.sim ss) with
    | (Return state, w') =>
        (Return tt,
         App.mkSession (App.running ss) w'
           (App.time_array ss ++ [sd_time state])
           (App.pol_array ss ++ [sd_polarization state])
           (App.freq_array ss ++ [sd_microwave_frequency state])
           (App.dose_array ss ++ [sd_accumulated_dose state])
           (App.beam_current_array ss ++ [sd_beam_current state]))
    | (Raise e, w') => (Raise e, App.set_sim w' ss)
    end.
Proof.
  unfold App.loop_body, App.sim_step. run_St.
  destruct (step None (App.sim ss)) as [[state|e] w']; reflexivity.
Qed.

Lemma app_loop_unfold (n : nat) (ss : App.Session) :
  App.loop (S n) ss
  = if App.running ss then
      match App.loop_body ss with
      | (Return _, ss') => App.loop n ss'
      | (Raise e, ss') => (Raise e, ss')
      end
    else (Return tt, ss).
Proof.
  unfold App.loop. cbn [while_loop]. run_St.
  destruct (App.running ss); reflexivity.
Qed.

Lemma app_loop_body_running (ss : App.Session) :
  App.running (snd (App.loop_body ss)) = App.running ss.
Proof.
  rewrite app_loop_body_run.
  destruct (step None (App.sim ss)) as [[state|e] w']; reflexivity.
Qed.

Lemma app_loop_lengths (n : nat) :
  forall ss : App.Session,
  let ss' := snd (App.loop n ss) in
  exists k : nat,
    (k <= n)%nat /\
    length (App.time_array ss') = (length (App.time_array ss) + k)%nat /\
    length (App.pol_array ss') = (length (App.pol_array ss) + k)%nat /\
    length (App.freq_array ss') = (length (App.freq_array ss) + k)%nat /\
    length (App.dose_array ss') = (length (App.dose_array ss) + k)%nat /\
    length (App.beam_current_array ss')
    = (length (App.beam_current_array ss) + k)%nat /\
    match fst (App.loop n ss) with
    | Return _ => if App.running ss then k = n else k = 0%nat
    | Raise _ => (k < n)%nat
    end.
Proof.
  induction n as [|n IH]; intros ss; cbv zeta.
  - exists 0%nat. cbn. rewrite !Nat.add_0_r.
    repeat split; try reflexivity. destruct (App.running ss); reflexivity.
  - rewrite app_loop_unfold.
    destruct (App.running ss) eqn:Hrun.
    + pose proof (app_loop_body_running ss) as Hkeep.
      rewrite app_loop_body_run in *.
      destruct (step None (App.sim ss)) as [[state|e] w'].
      * cbn [fst snd] in *.
        match goal with |- context [App.loop n ?x] =>
          destruct (IH x) as (k & Hk & L1 & L2 & L3 & L4 & L5 & Hr);
          destruct (App.loop n x) as [r ss2]
        end.
        exists (S k).
        cbn [fst snd App.running App.time_array App.pol_array App.freq_array
             App.dose_array App.beam_current_array] in *.
        rewrite length_app in L1, L2, L3, L4, L5. cbn [length] in *.
        repeat split; try lia.
        destruct r.
        -- rewrite Hrun in Hr. lia.
        -- lia.
      * exists 0%nat. cbn. rewrite !Nat.add_0_r.
        repeat split; try reflexivity; lia.
    + exists 0%nat. cbn. rewrite !Nat.add_0_r.
      repeat split; try reflexivity; lia.
Qed.

Lemma lookup_snoc_inv (l : list R) (x a : R) (i : nat) :
  (l ++ [x]) !! i = Some a ->
  ((i < length l)%nat /\ l !! i = Some a) \/ (i = length l /\ a = x).
Proof.
  intros H. apply lookup_app_Some in H as [H|[Hle H]].
  - left. split; [apply lookup_lt_Some in H; exact H|exact H].
  - right. destruct (i - length l)%nat as [|m] eqn:Hm; cbn in H.
    + injection H as <-. split; [lia|reflexivity].
    + destruct m; discriminate.
Qed.

Lemma non_decreasing_snoc (l : list R) (x : R) :
  non_decreasing l -> Forall (fun d => d <= x) l -> non_decreasing (l ++ [x]).
Proof.
  intros Hl Hall i j a b Hij Ha Hb.
  apply lookup_snoc_inv in Ha as [[Hi Ha]|[Hi ->]];
    apply lookup_snoc_inv in Hb as [[Hj Hb]|[Hj ->]].
  - apply (Hl i j); assumption.
  - rewrite Forall_forall in Hall. apply Hall.
    eapply list_elem_of_lookup_2. exact Ha.
  - lia.
  - lra.
Qed.

Lemma app_loop_body_frame (ss : App.Session) :
  let ss' := snd (App.loop_body ss) in
  App.running ss' = App.running ss /\
  App.sim ss' = snd (step None (App.sim ss)) /\
  time_step (self (App.sim ss')) = time_step (self (App.sim ss)) /\
  beam_area (self (App.sim ss')) = beam_area (self (App.sim ss)) /\
  phi (self (App.sim ss')) = phi (self (App.sim ss)).
Proof.
  cbv zeta. rewrite app_loop_body_run.
  pose proof (step_frame None (App.sim ss)) as (F1 & F2 & _ & F4 & _).
  cbv zeta in F1, F2, F4.
  destruct (step None (App.sim ss)) as [[state|e] w']; cbn in *;
    repeat split; assumption.
Qed.

Lemma app_loop_body_dose (ss : App.Session) :
  0 < time_step (self (App.sim ss)) -> 0 < beam_area (self (App.sim ss)) ->
  dose_recorded_in_order ss ->
  dose_recorded_in_order (snd (App.loop_body ss)).
Proof.
  intros Hdt Harea (Hsorted & Hbelow).
  rewrite app_loop_body_run.
  pose proof (step_dose_monotone None (App.sim ss) Hdt Harea) as Hd.
  pose proof (step_facts None (App.sim ss)) as Hf. cbv zeta in Hf.
  destruct Hf as (_ & _ & _ & _ & Hf).
  destruct (step None (App.sim ss)) as [[state|e] w']; cbn [fst snd] in *.
  - destruct Hf as (_ & _ & Hsd & _). unfold dose_recorded_in_order. cbn.
    split.
    + apply non_decreasing_snoc; [exact Hsorted|].
      eapply Forall_impl; [exact Hbelow|]. cbn. intros d Hle. lra.
    + apply Forall_app. split.
      * eapply Forall_impl; [exact Hbelow|]. cbn. intros d Hle. lra.
      * constructor; [lra|constructor].
  - unfold dose_recorded_in_order. cbn. split; [exact Hsorted|].
    eapply Forall_impl; [exact Hbelow|]. cbn. intros d Hle. lra.
Qed.

(** X15: every polarization the dashboard loop records lies in [0, 1]. *)
Theorem app_recorded_polarization_bounded (n : nat) (ss : App.Session) :
  Forall in_unit_interval (App.pol_array ss) ->
  Forall in_unit_interval (App.pol_array (snd (App.loop n ss))).
Proof.
  revert ss. induction n as [|n IH]; intros ss Hpol; [exact Hpol|].
  rewrite app_loop_unfold.
  destruct (App.running ss); [|exact Hpol].
  rewrite app_loop_body_run.
  pose proof (step_polarization None (App.sim ss)) as Hp.
  destruct (step None (App.sim ss)) as [[state|e] w']; cbn [fst snd] in *.
  - apply IH. cbn. apply Forall_app. split; [exact Hpol|].
    constructor; [apply Hp|constructor].
  - exact Hpol.
Qed.

(** X16: with positive [time_step] and [beam_area], a dose array that is
    in order and below the dose of the engine stays so through the loop:
    the recorded doses never decrease. *)
Theorem app_dose_history_non_decreasing (n : nat) :
  forall ss : App.Session,
  0 < time_step (self (App.sim ss)) -> 0 < beam_area (self (App.sim ss)) ->
  dose_recorded_in_order ss ->
  dose_recorded_in_order (snd (App.loop n ss)).
Proof.
  induction n as [|n IH]; intros ss Hdt Harea Hinv; [exact Hinv|].
  rewrite app_loop_unfold.
  destruct (App.running ss); [|exact Hinv].
  pose proof (app_loop_body_dose ss Hdt Harea Hinv) as Hinv1.
  pose proof (app_loop_body_frame ss) as (_ & _ & Fts & Fba & _).
  cbv zeta in Fts, Fba.
  destruct (App.loop_body ss) as [[u|e] ss1]; cbn [fst snd] in *.
  - apply IH; [rewrite Fts|rewrite Fba|]; assumption.
  - exact Hinv1.
Qed.

Lemma app_loop_runs (n : nat) :
  forall ss : App.Session,
  App.running ss = true ->
  beam_area (self (App.sim ss)) <> 0 -> phi (self (App.sim ss)) <> 0 ->
  let ss' := snd (App.loop n ss) in
  fst (App.loop n ss) = Return tt /\
  App.sim ss' = after (replicate n None) (App.sim ss) /\
  App.time_array ss'
  = App.time_array ss
    ++ map (fun k : nat =>
              time_elapsed (self (App.sim ss))
              + INR (S k) * time_step (self (App.sim ss)))
           (seq 0 n).
Proof.
  induction n as [|n IH]; intros ss Hrun Harea Hphi; cbv zeta.
  - cbn. rewrite app_nil_r. repeat split; reflexivity.
  - rewrite app_loop_unfold, Hrun.
    pose proof (app_loop_body_frame ss) as (Frun & Fsim & Fts & Fba & Fph).
    cbv zeta in Frun, Fsim, Fts, Fba, Fph.
    rewrite app_loop_body_run in *.
    destruct (step_returns None (App.sim ss) Harea Hphi) as [state Hr].
    pose proof (step_facts None (App.sim ss)) as Hf. cbv zeta in Hf.
    destruct Hf as (_ & _ & _ & _ & Hf). rewrite Hr in Hf.
    destruct Hf as (Htime & _ & _ & _ & _ & _ & Hadv).
    destruct (step None (App.sim ss)) as [r w'] eqn:Es.
    cbn [fst snd] in Hr, Htime, Hadv. subst r. cbn [fst snd] in *.
    match goal with |- context [App.loop n ?x] =>
      destruct (IH x) as (I1 & I2 & I3);
      [cbn; rewrite Hrun; reflexivity| exact (eq_ind_r (fun v => v <> 0) Harea Fba)
      | exact (eq_ind_r (fun v => v <> 0) Hphi Fph) |]
    end.
    split; [exact I1|]. split.
    + rewrite I2. cbn [App.sim replicate after fold_left]. rewrite Es. reflexivity.
    + rewrite I3. cbn [App.time_array App.sim seq map].
      rewrite <- app_assoc. cbn [app]. f_equal. f_equal.
      * rewrite Htime, Hadv. cbn. lra.
      * rewrite <- seq_shift, map_map. apply map_ext. intros k.
        rewrite Hadv. cbn [App.sim] in Fts. rewrite Fts.
        rewrite (S_INR (S k)). lra.
Qed.

(** X13: the dashboard loop appends one entry to each of its five arrays
    per completed iteration and none in an iteration that raises: after the
    loop the five lengths have grown by the same number, the number of
    iterations asked for when the loop returns with [running] set. *)
Theorem app_arrays_stay_aligned (n : nat) (ss : App.Session) :
  let ss' := snd (App.loop n ss) in
  exists k : nat,
    (k <= n)%nat /\
    length (App.time_array ss') = (length (App.time_array ss) + k)%nat /\
    length (App.pol_array ss') = (length (App.pol_array ss) + k)%nat /\
    length (App.freq_array ss') = (length (App.freq_array ss) + k)%nat /\
    length (App.dose_array ss') = (length (App.dose_array ss) + k)%nat /\
    length (App.beam_current_array ss')
    = (length (App.beam_current_array ss) + k)%nat /\
    match fst (App.loop n ss) with
    | Return _ => if App.running ss then k = n else k = 0%nat
    | Raise _ => (k < n)%nat
    end.
Proof. apply app_loop_lengths. Qed.

(** X14: a session the dashboard builds with a non-zero beam area never
    raises in its loop: after [n] iterations the engine is the engine after
    [n] calls of [step()], the time array is [time_step, 2 * time_step, ...]
    and every array holds [n] entries. *)
Theorem app_loop_never_raises (bc ts ba mf : R) (g : Rng) (n : nat) :
  ba <> 0 ->
  exists ss0 : App.Session,
    App.new_session bc ts ba mf g = Return ss0 /\
    let ss' := snd (App.loop n (App.start_simulation ss0)) in
    fst (App.loop n (App.start_simulation ss0)) = Return tt /\
    App.sim ss' = after (replicate n None) (App.sim ss0) /\
    App.time_array ss' = map (fun k : nat => INR (S k) * ts) (seq 0 n) /\
    length (App.pol_array ss') = n /\
    length (App.freq_array ss') = n /\
    length (App.dose_array ss') = n /\
    length (App.beam_current_array ss') = n.
Proof.
  intros Hba. unfold App.new_session. rewrite init_returns. cbn [mbind outcome_bind].
  eexists. split; [reflexivity|]. cbv zeta.
  match goal with |- context [App.loop n ?x] => set (ss1 := x) end.
  destruct (app_loop_runs n ss1) as (R1 & R2 & R3);
    [reflexivity|exact Hba|cbn -[Z.pow_pos]; lra|].
  destruct (app_loop_lengths n ss1) as (k & _ & _ & L2 & L3 & L4 & L5 & Lk).
  rewrite R1 in Lk. cbn in Lk. subst k. cbn in L2, L3, L4, L5.
  split; [exact R1|]. split; [exact R2|]. split.
  - rewrite R3. cbn [ss1 App.start_simulation App.set_running App.time_array
                     App.sim self time_elapsed time_step app].
    apply map_ext. intros k. lra.
  - repeat split; assumption.
Qed.

Lemma app_loop_never_raises_witness :
  1 <> 0 /\
  App.new_session 2e-9 1 1 140.1 rng_half = Return session_default /\
  fst (App.loop 3 (App.start_simulation session_default)) = Return tt /\
  App.time_array (snd (App.loop 3 (App.start_simulation session_default)))
  = [INR 1 * 1; INR 2 * 1; INR 3 * 1].
Proof.
  assert (H : 1 <> 0) by lra.
  split; [exact H|].
  destruct (app_loop_never_raises 2e-9 1 1 140.1 rng_half 3 H)
    as (ss0 & Hnew & Hrun & _ & Htime & _).
  assert (Hss : ss0 = session_default).
  { unfold App.new_session in Hnew. rewrite init_returns in Hnew.
    cbn [mbind outcome_bind] in Hnew. injection Hnew as <-. reflexivity. }
  subst ss0. split; [exact Hnew|]. split; [exact Hrun|exact Htime].
Defined.

Lemma app_recorded_polarization_bounded_witness :
  Forall in_unit_interval (App.pol_array session_default) /\
  Forall in_unit_interval
    (App.pol_array (snd (App.loop 3 (App.start_simulation session_default)))).
Proof.
  assert (H : Forall in_unit_interval
                (App.pol_array (App.start_simulation session_default)))
    by constructor.
  split; [exact H|].
  apply (app_recorded_polarization_bounded 3 _ H).
Defined.

Lemma app_dose_history_non_decreasing_witness :
  (0 < time_step (self (App.sim session_default)) /\
   0 < beam_area (self (App.sim session_default)) /\
   dose_recorded_in_order (App.start_simulation session_default)) /\
  non_decreasing
    (App.dose_array (snd (App.loop 3 (App.start_simulation session_default)))).
Proof.
  assert (H : 0 < time_step (self (App.sim session_default)) /\
              0 < beam_area (self (App.sim session_default)) /\
              dose_recorded_in_order (App.start_simulation session_default)).
  { split; [cbn; lra|]. split; [cbn; lra|].
    split; [|constructor].
    intros i j x y _ Hx. destruct i; discriminate. }
  split; [exact H|].
  destruct H as (H1 & H2 & H3).
  apply (app_dose_history_non_decreasing 3
           (App.start_simulation session_default) H1 H2 H3).
Defined.

Lemma step_attribute_frequency (f1 f2 : R) (s : t) (g : Rng) :
  f1 <= f2 ->
  match step None (mkWorld (set_microwave_frequency f1 s) g),
        step None (mkWorld (set_microwave_frequency f2 s) g) with
  | (Return snap1, _), (Return snap2, _) =>
      sd_polarization snap2 <= sd_polarization snap1 /\
      sd_microwave_frequency snap1 = f1 /\ sd_microwave_frequency snap2 = f2
  | (Raise _, _), (Raise _, _) => True
  | _, _ => False
  end.
Proof.
  intros Hf. rewrite !step_spec. cbv zeta.
  change (overridden None (set_microwave_frequency f1 s))
    with (set_microwave_frequency f1 s).
  change (overridden None (set_microwave_frequency f2 s))
    with (set_microwave_frequency f2 s).
  rewrite !trip_result_frequency. cbn [fst snd self rng].
  rewrite !finished_frequency.
  destruct (trip_result s g) as [cb [s2 g2]]. cbn [fst snd self rng].
  destruct (dosed cb s2) as [s3|e]; [|exact I].
  destruct (single_exponential_polarization _ _ _) as [b|e]; [|exact I].
  cbn. split; [|split; reflexivity].
  apply clamp_monotone. unfold microwave_effect. lra.
Qed.

Lemma set_microwave_frequency_same (s : t) :
  set_microwave_frequency (microwave_frequency s) s = s.
Proof. destruct s. reflexivity. Qed.

(** X17: pressing "Increase Frequency" before an iteration records a
    frequency 0.1 higher and a polarization that is at most the one
    recorded without the press; "Decrease Frequency" records 0.1 lower and
    at least that polarization; the three iterations return or raise
    together. *)
Theorem frequency_buttons_move_polarization (ss : App.Session) :
  match App.loop_body (App.decrease_frequency ss), App.loop_body ss,
        App.loop_body (App.increase_frequency ss) with
  | (Return _, down), (Return _, same), (Return _, up) =>
      exists p_down p_same p_up : R,
        last (App.pol_array down) = Some p_down /\
        last (App.pol_array same) = Some p_same /\
        last (App.pol_array up) = Some p_up /\
        p_up <= p_same /\ p_same <= p_down /\
        last (App.freq_array up)
        = Some (microwave_frequency (self (App.sim ss)) + 0.1) /\
        last (App.freq_array down)
        = Some (microwave_frequency (self (App.sim ss)) - 0.1)
  | (Raise _, _), (Raise _, _), (Raise _, _) => True
  | _, _, _ => False
  end.
Proof.
  rewrite !app_loop_body_run.
  destruct ss as [run [s g] ta pa fa da ba].
  cbn [App.sim App.increase_frequency App.decrease_frequency App.set_sim
       self rng App.running App.time_array App.pol_array App.freq_array
       App.dose_array App.beam_current_array].
  pose proof (step_attribute_frequency (microwave_frequency s - 0.1)
                (microwave_frequency s) s g ltac:(lra)) as Hd.
  pose proof (step_attribute_frequency (microwave_frequency s)
                (microwave_frequency s + 0.1) s g ltac:(lra)) as Hu.
  rewrite set_microwave_frequency_same in Hd, Hu.
  destruct (step None
              (mkWorld (set_microwave_frequency (microwave_frequency s - 0.1) s)
                       g))
    as [[sd|ed] wd];
    destruct (step None (mkWorld s g)) as [[ss0|e0] w0];
    destruct (step None
                (mkWorld
                   (set_microwave_frequency (microwave_frequency s + 0.1) s)
                   g))
      as [[su|eu] wu]; cbv beta iota in Hd, Hu;
    try contradiction; try exact I.
  cbn [App.pol_array App.freq_array].
  exists (sd_polarization sd), (sd_polarization ss0), (sd_polarization su).
  rewrite !last_snoc.
  destruct Hd as (Hd1 & Hd2 & _). destruct Hu as (Hu1 & _ & Hu2).
  repeat split; try assumption; congruence.
Qed.

Lemma proto_loop_body_run (c : Prototype.Controls) (ss : Prototype.Session) :
  Prototype.loop_body c ss
  = match Prototype.effective_T1 (Prototype.T1_initial c)
            (Prototype.beam_current c) with
    | Raise e => (Raise e, ss)
    | Return T1 =>
        match Prototype.polarization_model (Prototype.polarization ss) T1
                (Prototype.radiation_coeff c) (Prototype.P_thermal c)
                (Prototype.time_step c)
                (- (Prototype.microwave_frequency ss - 140.1) * 0.01) with
        | Raise e => (Raise e, ss)
        | Return p =>
            match pydiv (Prototype.beam_current c * Prototype.time_step c)
                    (Prototype.ELECTRON_CHARGE * Prototype.beam_area c) with
            | Raise e => (Raise e, Prototype.set_polarization (py_max 0 p) ss)
            | Return d =>
                (Return tt,
                 Prototype.mkSession (Prototype.running ss)
                   (Prototype.microwave_frequency ss)
                   (py_max 0 p)
                   (Prototype.time_steps ss
                    ++ [INR (length (Prototype.time_steps ss))
                        * Prototype.time_step c])
                   (Prototype.polarization_history ss ++ [py_max 0 p])
                   (Prototype.frequency_history ss
                    ++ [Prototype.microwave_frequency ss])
                   (take (S (length (Prototype.time_steps ss)))
                      (Prototype.dose_history ss
                       ++ [Prototype.accumulated_dose ss + d]))
                   (Prototype.accumulated_dose ss + d))
            end
        end
    end.
Proof.
  unfold Prototype.loop_body. run_St.
  destruct (Prototype.effective_T1 _ _) as [T1|e]; [|reflexivity].
  destruct (Prototype.polarization_model _ _ _ _ _ _) as [p|e];
    [|reflexivity].
  destruct (pydiv _ _) as [d|e]; [|reflexivity].
  rewrite !length_app. cbn [length]. rewrite !Nat.add_1_r.
  match goal with |- context [if ?b then _ else _] => destruct b eqn:Hb end.
  - reflexivity.
  - cbn. rewrite take_ge; [reflexivity|].
    apply Nat.leb_gt in Hb. rewrite length_app. cbn. lia.
Qed.

(** X18: [effective_T1] raises [ZeroDivisionError] exactly at a beam
    current of -10. *)
Theorem effective_T1_raises_iff (T1_initial beam_current : R) :
  (exists e : exn, Prototype.effective_T1 T1_initial beam_current = Raise e)
  <-> beam_current = -10.
Proof.
  unfold Prototype.effective_T1, pydiv.
  destruct (Req_dec_T (1 + 0.1 * beam_current) 0) as [Hz|Hz].
  - split; [intros _; lra|intros _; exists ZeroDivisionError; reflexivity].
  - split; [intros [e He]; discriminate|intros H; exfalso; lra].
Qed.

(** X19: for a positive initial T1 and non-negative beam currents,
    [effective_T1] is positive, at most the initial T1 and does not grow
    with the beam current. *)
Theorem effective_T1_shortens (T1_initial b1 b2 : R) :
  0 < T1_initial -> 0 <= b1 -> b1 <= b2 ->
  exists t1 t2 : R,
    Prototype.effective_T1 T1_initial b1 = Return t1 /\
    Prototype.effective_T1 T1_initial b2 = Return t2 /\
    0 < t2 /\ t2 <= t1 /\ t1 <= T1_initial.
Proof.
  intros HT Hb1 Hb. unfold Prototype.effective_T1.
  rewrite !pydiv_return by lra.
  eexists. eexists. split; [reflexivity|]. split; [reflexivity|].
  assert (H1 : 0 < 1 + 0.1 * b1) by lra.
  assert (H2 : 0 < 1 + 0.1 * b2) by lra.
  split; [apply Rdiv_lt_0_compat; assumption|]. split.
  - unfold Rdiv. apply Rmult_le_compat_l; [lra|].
    apply Rinv_le_contravar; lra.
  - apply (Rmult_le_reg_r (1 + 0.1 * b1)); [exact H1|].
    unfold Rdiv. rewrite Rmult_assoc, Rinv_l by lra. nra.
Qed.

Lemma effective_T1_shortens_witness :
  (0 < 300 /\ 0 <= 2e-9 /\ 2e-9 <= 1e-3) /\
  exists t1 t2 : R,
    Prototype.effective_T1 300 2e-9 = Return t1 /\
    Prototype.effective_T1 300 1e-3 = Return t2 /\
    0 < t2 /\ t2 <= t1 /\ t1 <= 300.
Proof.
  assert (H : 0 < 300 /\ 0 <= 2e-9 /\ 2e-9 <= 1e-3) by lra.
  split; [exact H|]. destruct H as (H1 & H2 & H3).
  apply (effective_T1_shortens 300 2e-9 1e-3 H1 H2 H3).
Defined.

(** X20: for [T1 <> 0] and a non-zero rate [1 / T1 + beta], one update of
    [polarization_model] multiplies the distance to the equilibrium
    [(P_thermal / T1 + microwave_effect) / rate] by [1 - dt * rate]: the
    equilibrium is a fixed point and, for [0 <= dt * rate <= 1], a
    polarization above it moves towards it without crossing. *)
Theorem polarization_model_relaxes
    (P T1 beta P_thermal dt microwave_effect : R) :
  T1 <> 0 -> / T1 + beta <> 0 ->
  let rate := / T1 + beta in
  let P_eq := (P_thermal / T1 + microwave_effect) / rate in
  exists P' : R,
    Prototype.polarization_model P T1 beta P_thermal dt microwave_effect
    = Return P' /\
    P' - P_eq = (1 - dt * rate) * (P - P_eq) /\
    (P = P_eq -> P' = P_eq) /\
    (0 <= dt * rate <= 1 -> P_eq <= P -> P_eq <= P' <= P).
Proof.
  intros HT Hrate. cbv zeta.
  unfold Prototype.polarization_model. rewrite pydiv_return by exact HT.
  cbn [mbind outcome_bind].
  eexists. split; [reflexivity|].
  set (rate := / T1 + beta) in *.
  set (P_eq := (P_thermal / T1 + microwave_effect) / rate).
  assert (Heq : P_eq * rate = P_thermal / T1 + microwave_effect).
  { unfold P_eq. field. split; assumption. }
  assert (Hid : P + (- (P - P_thermal) / T1 - beta * P + microwave_effect) * dt
                - P_eq
                = (1 - dt * rate) * (P - P_eq)).
  { transitivity (P - P_eq - dt * (rate * P - P_eq * rate)).
    - rewrite Heq. unfold rate. field. exact HT.
    - ring. }
  split; [exact Hid|]. split.
  - intros HP. rewrite HP in Hid at 3. nra.
  - intros Hstep Hle. nra.
Qed.

Lemma polarization_model_relaxes_witness :
  (300 <> 0 /\ / 300 + 0.0001 <> 0) /\
  exists P' : R,
    Prototype.polarization_model 0.9 300 0.0001 0.05 1 0 = Return P' /\
    P' - (0.05 / 300 + 0) / (/ 300 + 0.0001)
    = (1 - 1 * (/ 300 + 0.0001)) * (0.9 - (0.05 / 300 + 0) / (/ 300 + 0.0001)).
Proof.
  assert (H : 300 <> 0 /\ / 300 + 0.0001 <> 0) by (split; lra).
  split; [exact H|].
  destruct (polarization_model_relaxes 0.9 300 0.0001 0.05 1 0
              (proj1 H) (proj2 H)) as (P' & Hr & Hid & _).
  exists P'. split; [exact Hr|exact Hid].
Defined.

Lemma pydiv_zero (x y : R) : y = 0 -> pydiv x y = Raise ZeroDivisionError.
Proof. intros H. unfold pydiv. destruct (Req_dec_T y 0); [reflexivity|contradiction]. Qed.

Lemma proto_loop_body_cases (c : Prototype.Controls) (ss : Prototype.Session) :
  (controls_ok c /\
   exists p : R,
     Prototype.loop_body c ss
     = (Return tt,
        Prototype.mkSession (Prototype.running ss)
          (Prototype.microwave_frequency ss)
          (py_max 0 p)
          (Prototype.time_steps ss
           ++ [INR (length (Prototype.time_steps ss)) * Prototype.time_step c])
          (Prototype.polarization_history ss ++ [py_max 0 p])
          (Prototype.frequency_history ss ++ [Prototype.microwave_frequency ss])
          (take (S (length (Prototype.time_steps ss)))
             (Prototype.dose_history ss
              ++ [Prototype.accumulated_dose ss + dose_step c]))
          (Prototype.accumulated_dose ss + dose_step c))) \/
  (~ controls_ok c /\
   exists ss' : Prototype.Session,
     Prototype.loop_body c ss = (Raise ZeroDivisionError, ss') /\
     Prototype.time_steps ss' = Prototype.time_steps ss /\
     Prototype.polarization_history ss' = Prototype.polarization_history ss /\
     Prototype.frequency_history ss' = Prototype.frequency_history ss /\
     Prototype.dose_history ss' = Prototype.dose_history ss /\
     Prototype.accumulated_dose ss' = Prototype.accumulated_dose ss /\
     (Prototype.polarization ss' = Prototype.polarization ss \/
      0 <= Prototype.polarization ss')).
Proof.
  rewrite proto_loop_body_run.
  unfold Prototype.effective_T1, Prototype.polarization_model, controls_ok,
    dose_step.
  destruct (Req_dec_T (Prototype.beam_current c) (-10)) as [Hb|Hb].
  { right. split; [intros (H & _); contradiction|].
    rewrite pydiv_zero by lra.
    exists ss. repeat split; try reflexivity. left. reflexivity. }
  rewrite (pydiv_return (Prototype.T1_initial c)) by lra.
  destruct (Req_dec_T (Prototype.T1_initial c) 0) as [Ht|Ht].
  { right. split; [intros (_ & H & _); contradiction|].
    rewrite pydiv_zero by (rewrite Ht; unfold Rdiv; ring).
    exists ss. repeat split; try reflexivity. left. reflexivity. }
  assert (HT1 : Prototype.T1_initial c
                / (1 + 0.1 * Prototype.beam_current c) <> 0).
  { intros H. apply Ht.
    apply (Rmult_eq_compat_r (1 + 0.1 * Prototype.beam_current c)) in H.
    unfold Rdiv in H. rewrite Rmult_assoc, Rinv_l in H by lra. lra. }
  rewrite (pydiv_return _ _ HT1). cbn [mbind outcome_bind].
  destruct (Req_dec_T (Prototype.beam_area c) 0) as [Ha|Ha].
  { right. split; [intros (_ & _ & H); contradiction|].
    rewrite pydiv_zero by (rewrite Ha; ring).
    eexists. split; [reflexivity|]. cbn. repeat split; try reflexivity.
    right. unfold py_max. destruct (Rgt_dec _ 0); lra. }
  left. split; [repeat split; assumption|].
  rewrite pydiv_return
    by (unfold Prototype.ELECTRON_CHARGE; intros H;
        apply Rmult_integral in H; destruct H; [lra|contradiction]).
  eexists. reflexivity.
Qed.

(** X21: an iteration of the prototype loop raises exactly when the beam
    current is -10, the initial T1 is 0 or the beam area is 0; it then
    raises [ZeroDivisionError] and leaves the histories and the dose
    untouched. *)
Theorem prototype_iteration_raises_iff
    (c : Prototype.Controls) (ss : Prototype.Session) :
  ((exists e : exn, fst (Prototype.loop_body c ss) = Raise e) <->
   Prototype.beam_current c = -10 \/ Prototype.T1_initial c = 0 \/
   Prototype.beam_area c = 0) /\
  (forall e : exn,
     fst (Prototype.loop_body c ss) = Raise e ->
     let ss' := snd (Prototype.loop_body c ss) in
     e = ZeroDivisionError /\
     Prototype.time_steps ss' = Prototype.time_steps ss /\
     Prototype.polarization_history ss' = Prototype.polarization_history ss /\
     Prototype.frequency_history ss' = Prototype.frequency_history ss /\
     Prototype.dose_history ss' = Prototype.dose_history ss /\
     Prototype.accumulated_dose ss' = Prototype.accumulated_dose ss).
Proof.
  destruct (proto_loop_body_cases c ss)
    as [[Hok [p Hrun]]|[Hbad (ss' & Hrun & H1 & H2 & H3 & H4 & H5 & _)]];
    rewrite Hrun; cbn [fst snd].
  - split.
    + split; [intros [e He]; discriminate|].
      destruct Hok as (Hb & Ht & Ha). intros [H|[H|H]]; contradiction.
    + intros e He. discriminate.
  - split.
    + split; [|intros _; exists ZeroDivisionError; reflexivity].
      intros _. unfold controls_ok in Hbad.
      destruct (Req_dec_T (Prototype.beam_current c) (-10)) as [Hb|Hb];
        [left; exact Hb|].
      destruct (Req_dec_T (Prototype.T1_initial c) 0) as [Ht|Ht];
        [right; left; exact Ht|].
      destruct (Req_dec_T (Prototype.beam_area c) 0) as [Ha|Ha];
        [right; right; exact Ha|].
      exfalso. apply Hbad. repeat split; assumption.
    + intros e He. injection He as <-. repeat split; assumption.
Qed.

(** X22: an iteration that returns adds the dose step to the accumulated
    dose; the new dose is appended to the dose history when that history is
    not longer than the time axis, and is cut off again, the history being
    trimmed to the length of the time axis, when it is longer. *)
Theorem prototype_dose_history_update
    (c : Prototype.Controls) (ss : Prototype.Session) :
  match Prototype.loop_body c ss with
  | (Return _, ss') =>
      Prototype.accumulated_dose ss'
      = Prototype.accumulated_dose ss + dose_step c /\
      length (Prototype.time_steps ss')
      = S (length (Prototype.time_steps ss)) /\
      ((length (Prototype.dose_history ss)
        <= length (Prototype.time_steps ss))%nat ->
       Prototype.dose_history ss'
       = Prototype.dose_history ss ++ [Prototype.accumulated_dose ss']) /\
      ((length (Prototype.dose_history ss)
        > length (Prototype.time_steps ss))%nat ->
       Prototype.dose_history ss'
       = take (S (length (Prototype.time_steps ss)))
           (Prototype.dose_history ss))
  | (Raise _, _) => True
  end.
Proof.
  destruct (proto_loop_body_cases c ss)
    as [[_ [p Hrun]]|[_ (ss' & Hrun & _)]]; rewrite Hrun; [|exact I].
  cbn. split; [reflexivity|]. split; [rewrite length_app; cbn; lia|]. split.
  - intros Hle. apply take_ge. rewrite length_app. cbn. lia.
  - intros Hgt. rewrite take_app_le by lia. reflexivity.
Qed.

Lemma prototype_dose_history_update_witness :
  (length (Prototype.dose_history session_unaligned)
   > length (Prototype.time_steps session_unaligned))%nat /\
  exists ss' : Prototype.Session,
    Prototype.loop_body controls_default session_unaligned = (Return tt, ss') /\
    Prototype.dose_history ss' = [5] /\
    Prototype.accumulated_dose ss' = 7 + dose_step controls_default.
Proof.
  assert (H : (length (Prototype.dose_history session_unaligned)
               > length (Prototype.time_steps session_unaligned))%nat)
    by (cbn; lia).
  split; [exact H|].
  pose proof (prototype_dose_history_update controls_default
                session_unaligned) as L.
  destruct (proto_loop_body_cases controls_default session_unaligned)
    as [[_ [p Hrun]]|[Hbad _]].
  - rewrite Hrun in L. destruct L as (Hd & _ & _ & Ht).
    eexists. split; [exact Hrun|]. split; [exact (Ht H)|exact Hd].
  - exfalso. apply Hbad. unfold controls_ok, controls_default.
    cbn -[Z.pow_pos]. repeat split; lra.
Defined.

Lemma proto_loop_unfold (c : Prototype.Controls) (n : nat)
    (ss : Prototype.Session) :
  Prototype.loop c (S n) ss
  = if Prototype.running ss then
      match Prototype.loop_body c ss with
      | (Return _, ss') => Prototype.loop c n ss'
      | (Raise e, ss') => (Raise e, ss')
      end
    else (Return tt, ss).
Proof.
  unfold Prototype.loop. cbn [while_loop]. run_St.
  destruct (Prototype.running ss); reflexivity.
Qed.

Lemma proto_loop_runs (c : Prototype.Controls) (n : nat) :
  controls_ok c ->
  forall ss : Prototype.Session,
  Prototype.running ss = true ->
  length (Prototype.dose_history ss) = length (Prototype.time_steps ss) ->
  Forall (fun p => 0 <= p) (Prototype.polarization_history ss) ->
  let ss' := snd (Prototype.loop c n ss) in
  fst (Prototype.loop c n ss) = Return tt /\
  Prototype.time_steps ss'
  = Prototype.time_steps ss
    ++ map (fun k : nat =>
              INR (length (Prototype.time_steps ss) + k)
              * Prototype.time_step c) (seq 0 n) /\
  Prototype.dose_history ss'
  = Prototype.dose_history ss
    ++ map (fun k : nat =>
              Prototype.accumulated_dose ss + INR (S k) * dose_step c)
           (seq 0 n) /\
  Prototype.accumulated_dose ss'
  = Prototype.accumulated_dose ss + INR n * dose_step c /\
  length (Prototype.polarization_history ss')
  = (length (Prototype.polarization_history ss) + n)%nat /\
  length (Prototype.frequency_history ss')
  = (length (Prototype.frequency_history ss) + n)%nat /\
  Forall (fun p => 0 <= p) (Prototype.polarization_history ss').
Proof.
  intros Hok. induction n as [|n IH]; intros ss Hrun Hlen Hpos; cbv zeta.
  - cbn. rewrite !app_nil_r, !Nat.add_0_r.
    repeat split; try reflexivity; try assumption; try lra.
  - rewrite proto_loop_unfold, Hrun.
    destruct (proto_loop_body_cases c ss)
      as [[_ [p Hbody]]|[Hbad _]]; [|contradiction].
    rewrite Hbody.
    match goal with |- context [Prototype.loop c n ?x] =>
      set (ss1 := x) in *
    end.
    assert (Hdh : Prototype.dose_history ss1
                  = Prototype.dose_history ss
                    ++ [Prototype.accumulated_dose ss + dose_step c]).
    { cbn. apply take_ge. rewrite length_app. cbn. lia. }
    destruct (IH ss1) as (I1 & I2 & I3 & I4 & I5 & I6 & I7).
    + exact Hrun.
    + rewrite Hdh. cbn. rewrite !length_app. cbn. lia.
    + cbn. apply Forall_app. split; [exact Hpos|].
      constructor; [|constructor].
      unfold py_max. destruct (Rgt_dec _ 0); lra.
    + split; [exact I1|].
      cbn [fst snd]. rewrite I2, I3, I4, I5, I6, Hdh.
      cbn [ss1 Prototype.time_steps Prototype.accumulated_dose
           Prototype.polarization_history Prototype.frequency_history
           Prototype.microwave_frequency] in *.
      rewrite !length_app. cbn [length seq map].
      rewrite <- !app_assoc. cbn [app].
      split; [|split; [|split; [|split; [|split]]]].
      * f_equal. f_equal; [rewrite Nat.add_0_r; reflexivity|].
        rewrite <- seq_shift, map_map. apply map_ext. intros k.
        f_equal. f_equal. lia.
      * f_equal. f_equal; [cbn; lra|].
        rewrite <- seq_shift, map_map. apply map_ext. intros k.
        rewrite (S_INR (S k)). lra.
      * rewrite (S_INR n). lra.
      * lia.
      * lia.
      * exact I7.
Qed.

(** X23: from a fresh session, with a beam current other than -10 and
    non-zero initial T1 and beam area, the prototype loop never raises:
    after [n] iterations the time axis is [0, time_step, 2 * time_step, ...]
    and the three histories hold [n] entries each. *)
Theorem prototype_loop_never_raises (c : Prototype.Controls) (n : nat) :
  Prototype.beam_current c <> -10 -> Prototype.T1_initial c <> 0 ->
  Prototype.beam_area c <> 0 ->
  let ss' := snd (Prototype.loop c n
                    (Prototype.start_simulation Prototype.new_session)) in
  fst (Prototype.loop c n (Prototype.start_simulation Prototype.new_session))
  = Return tt /\
  Prototype.time_steps ss'
  = map (fun k : nat => INR k * Prototype.time_step c) (seq 0 n) /\
  length (Prototype.polarization_history ss') = n /\
  length (Prototype.frequency_history ss') = n /\
  length (Prototype.dose_history ss') = n.
Proof.
  intros Hb Ht Ha. cbv zeta.
  destruct (proto_loop_runs c n (conj Hb (conj Ht Ha))
              (Prototype.start_simulation Prototype.new_session))
    as (R1 & R2 & R3 & _ & R5 & R6 & _);
    [reflexivity|reflexivity|constructor|].
  split; [exact R1|]. split; [exact R2|].
  split; [exact R5|]. split; [exact R6|].
  rewrite R3. cbn. rewrite length_map, length_seq. reflexivity.
Qed.

Lemma prototype_loop_never_raises_witness :
  (Prototype.beam_current controls_default <> -10 /\
   Prototype.T1_initial controls_default <> 0 /\
   Prototype.beam_area controls_default <> 0) /\
  fst (Prototype.loop controls_default 3
         (Prototype.start_simulation Prototype.new_session)) = Return tt /\
  Prototype.time_steps
    (snd (Prototype.loop controls_default 3
            (Prototype.start_simulation Prototype.new_session)))
  = [INR 0 * 1; INR 1 * 1; INR 2 * 1].
Proof.
  assert (H : Prototype.beam_current controls_default <> -10 /\
              Prototype.T1_initial controls_default <> 0 /\
              Prototype.beam_area controls_default <> 0)
    by (cbn -[Z.pow_pos]; repeat split; lra).
  split; [exact H|]. destruct H as (H1 & H2 & H3).
  destruct (prototype_loop_never_raises controls_default 3 H1 H2 H3)
    as (R1 & R2 & _).
  split; [exact R1|exact R2].
Defined.

(** X24: under the same conditions the dose of the prototype grows by the
    same step in every iteration (it has no beam trips): after [n]
    iterations it is [n] times [(beam_current * time_step) /
    (ELECTRON_CHARGE * beam_area)] and the history holds the multiples. *)
Theorem prototype_dose_grows_linearly (c : Prototype.Controls) (n : nat) :
  Prototype.beam_current c <> -10 -> Prototype.T1_initial c <> 0 ->
  Prototype.beam_area c <> 0 ->
  let ss' := snd (Prototype.loop c n
                    (Prototype.start_simulation Prototype.new_session)) in
  Prototype.accumulated_dose ss'
  = INR n * ((Prototype.beam_current c * Prototype.time_step c)
             / (Prototype.ELECTRON_CHARGE * Prototype.beam_area c)) /\
  Prototype.dose_history ss'
  = map (fun k : nat =>
           INR (S k) * ((Prototype.beam_current c * Prototype.time_step c)
                        / (Prototype.ELECTRON_CHARGE * Prototype.beam_area c)))
        (seq 0 n).
Proof.
  intros Hb Ht Ha. cbv zeta.
  destruct (proto_loop_runs c n (conj Hb (conj Ht Ha))
              (Prototype.start_simulation Prototype.new_session))
    as (_ & _ & R3 & R4 & _);
    [reflexivity|reflexivity|constructor|].
  split.
  - rewrite R4. unfold dose_step. cbn. lra.
  - rewrite R3. unfold dose_step. cbn [Prototype.dose_history
      Prototype.start_simulation Prototype.set_running Prototype.new_session
      Prototype.accumulated_dose app].
    apply map_ext. intros k. lra.
Qed.

Lemma prototype_dose_grows_linearly_witness :
  (Prototype.beam_current controls_default <> -10 /\
   Prototype.T1_initial controls_default <> 0 /\
   Prototype.beam_area controls_default <> 0) /\
  Prototype.accumulated_dose
    (snd (Prototype.loop controls_default 3
            (Prototype.start_simulation Prototype.new_session)))
  = INR 3 * ((2e-9 * 1) / (Prototype.ELECTRON_CHARGE * 1)).
Proof.
  assert (H : Prototype.beam_current controls_default <> -10 /\
              Prototype.T1_initial controls_default <> 0 /\
              Prototype.beam_area controls_default <> 0)
    by (cbn -[Z.pow_pos]; repeat split; lra).
  split; [exact H|]. destruct H as (H1 & H2 & H3).
  apply (prototype_dose_grows_linearly controls_default 3 H1 H2 H3).
Defined.

(** X25: the prototype keeps its polarization, and every polarization it
    records, at or above 0 (it has no upper clamp). *)
Theorem prototype_polarization_never_negative
    (c : Prototype.Controls) (n : nat) :
  forall ss : Prototype.Session,
  0 <= Prototype.polarization ss ->
  Forall (fun p => 0 <= p) (Prototype.polarization_history ss) ->
  let ss' := snd (Prototype.loop c n ss) in
  0 <= Prototype.polarization ss' /\
  Forall (fun p => 0 <= p) (Prototype.polarization_history ss').
Proof.
  induction n as [|n IH]; intros ss Hp Hh; cbv zeta; [split; assumption|].
  rewrite proto_loop_unfold.
  destruct (Prototype.running ss); [|split; assumption].
  destruct (proto_loop_body_cases c ss)
    as [[_ [p Hbody]]|[_ (ss1 & Hbody & _ & H2 & _ & _ & _ & H6)]];
    rewrite Hbody.
  - apply IH; cbn.
    + unfold py_max. destruct (Rgt_dec _ 0); lra.
    + apply Forall_app. split; [exact Hh|].
      constructor; [|constructor].
      unfold py_max. destruct (Rgt_dec _ 0); lra.
  - cbn. split.
    + destruct H6 as [->|H6]; assumption.
    + rewrite H2. exact Hh.
Qed.

Lemma prototype_polarization_never_negative_witness :
  (0 <= Prototype.polarization Prototype.new_session /\
   Forall (fun p => 0 <= p)
     (Prototype.polarization_history Prototype.new_session)) /\
  0 <= Prototype.polarization
         (snd (Prototype.loop controls_default 3
                 (Prototype.start_simulation Prototype.new_session))).
Proof.
  assert (H : 0 <= Prototype.polarization
                     (Prototype.start_simulation Prototype.new_session) /\
              Forall (fun p => 0 <= p)
                (Prototype.polarization_history
                   (Prototype.start_simulation Prototype.new_session)))
    by (split; [cbn; lra|constructor]).
  split; [exact H|].
  apply (prototype_polarization_never_negative controls_default 3
           (Prototype.start_simulation Prototype.new_session)
           (proj1 H) (proj2 H)).
Defined.

Lemma step_raises_exactly_on_zero_area_witness :
  phi engine_zero_area <> 0 /\
  fst (step None (mkWorld engine_zero_area rng_half))
  = Raise ZeroDivisionError /\
  accumulated_dose (self (snd (step None (mkWorld engine_zero_area rng_half))))
  = 0.
Proof.
  assert (H : phi engine_zero_area <> 0) by (cbn -[Z.pow_pos]; lra).
  split; [exact H|].
  destruct (step_raises_exactly_on_zero_area None
              (mkWorld engine_zero_area rng_half) H) as [Hiff Hstate].
  assert (Hr : exists e : exn,
             fst (step None (mkWorld engine_zero_area rng_half)) = Raise e).
  { apply Hiff. unfold engine_zero_area, rng_half. run_step.
    repeat split; try reflexivity; lra. }
  destruct Hr as [e He]. destruct (Hstate e He) as (-> & Hd & _).
  split; [exact He|exact Hd].
Defined.
